(** * CardEffect: the particle engine of pixel-cards-canvas (src/main.ts)

    A shallow embedding of the [CardEffect] class: grid layout, hover easing,
    the per-frame wave gate / opacity integration / bounce, and the calls the
    class makes on its 2D drawing context.

    Conventions of the embedding.
    - A TypeScript [number] is a real number ([R]); rounding, and non-finite
      inputs, are outside the model.  The one place where the class can leave
      the finite numbers on finite inputs, the division in the wave gate, is
      modelled with its JavaScript result ([jsDiv]).
    - [gridCells] counts cells and bounds two [for] loops: it is a [nat].
    - An array read out of range yields [undefined]: a square's [color] is an
      [option], and reading a component of an undefined color throws.
    - [Math.random] is a stream of draws with a cursor ([Rng]).
    - The canvas and its 2D context are records of the fields the class reads
      and writes; the context logs the drawing calls it receives.  The
      canvas is an HTMLCanvasElement: what is assigned to its [width] and
      [height] reads back as an [unsigned long] ([reflectedSize]). *)

From Stdlib Require Import Reals Lra Lia List Arith ZArith String Bool.
Import ListNotations.
Local Open Scope R_scope.

(** ** JavaScript values *)

(** The result of a division of two finite numbers. *)
Inductive JsNum : Type :=
| Finite (v : R)
| PosInfinity
| NegInfinity
| NaN.

(** [a / b] for finite [a] and [b]; a zero divisor is [+0] (the only zero the
    class ever divides by is the literal [0] stored in [_maxPointDistance]). *)
Definition jsDiv (a b : R) : JsNum :=
  if Req_dec_T b 0 then
    if Rlt_dec 0 a then PosInfinity
    else if Rlt_dec a 0 then NegInfinity
    else NaN
  else Finite (a / b).

(** [q > w]; every comparison with [NaN] is false. *)
Definition jsGt (q : JsNum) (w : R) : bool :=
  match q with
  | Finite v => if Rgt_dec v w then true else false
  | PosInfinity => true
  | NegInfinity => false
  | NaN => false
  end.

Inductive JsError : Type :=
| Error (message : string)
| TypeError.

(** The outcome of a call.  An exception is never caught by the class or by
    the animation loop around it, so nothing runs on the instance after a
    throw: a thrown call carries no state. *)
Inductive Result (A : Type) : Type :=
| Ok (a : A)
| Throw (e : JsError).

Arguments Ok {A} a.
Arguments Throw {A} e.

Definition bind {A B : Type} (c : Result A) (k : A -> Result B) : Result B :=
  match c with
  | Ok a => k a
  | Throw e => Throw e
  end.

Notation "x <- c ;; k" := (bind c (fun x => k))
  (at level 61, c at next level, right associativity).
Notation "' p <- c ;; k" := (bind c (fun p => k))
  (at level 61, p pattern, c at next level, right associativity).

(** [Math.floor]. *)
Definition Math_floor (v : R) : Z := Int_part v.

(** [arr[i]] for an integral index: [undefined] out of range. *)
Definition arrayGet {A : Type} (arr : list A) (i : Z) : option A :=
  if (i <? 0)%Z then None else nth_error arr (Z.to_nat i).

(** [Math.random]: a stream of draws and the position of the next one. *)
Record Rng : Type := { draws : nat -> R; cursor : nat }.

Definition Math_random (rng : Rng) : R * Rng :=
  (draws rng (cursor rng), {| draws := draws rng; cursor := S (cursor rng) |}).

(** ** Data model *)

Module Color.

Record t : Type := { r : R; g : R; b : R }.

End Color.

Module Square.

Record t : Type := {
  x : R;
  y : R;
  opacity : R;
  speed : R;
  color : option Color.t;
  distanceFromCenter : R
}.

End Square.

Record CardEffectOptions : Type := {
  cellSize : R;
  gapSize : R;
  gridCells : nat;
  squareSize : R;
  minPointFadeSpeed : R;
  maxPointFadeSpeed : R;
  pointFadeSpeedFactor : R;
  cardSpeedFactor : R;
  fadeSpeedFactor : R;
  colors : list Color.t
}.

Definition DEFAULT_OPTIONS : CardEffectOptions := {|
  cellSize := 50;
  gapSize := 0;
  gridCells := 50;
  squareSize := 25;
  minPointFadeSpeed := 4;
  maxPointFadeSpeed := 6;
  pointFadeSpeedFactor := 0.01;
  cardSpeedFactor := 0.065;
  fadeSpeedFactor := 0.04;
  colors := [ {| Color.r := 255; Color.g := 255; Color.b := 255 |};
              {| Color.r := 255; Color.g := 0; Color.b := 0 |} ]
|}.

(** ** The drawing surface *)

(** [fillStyle]: the context's initial style, or the
    [rgba(r, g, b, opacity)] string built by [_drawSquare]. *)
Inductive FillStyle : Type :=
| InitialFill
| Rgba (r g b a : R).

Inductive DrawCall : Type :=
| ClearRect (x y w h : R)
| FillRect (style : FillStyle) (x y w h : R).

Record Context2D : Type := {
  fillStyle : FillStyle;
  calls : list DrawCall
}.

Definition clearRect (x y w h : R) (ctx : Context2D) : Context2D :=
  {| fillStyle := fillStyle ctx; calls := calls ctx ++ [ClearRect x y w h] |}.

Definition setFillStyle (style : FillStyle) (ctx : Context2D) : Context2D :=
  {| fillStyle := style; calls := calls ctx |}.

Definition fillRect (x y w h : R) (ctx : Context2D) : Context2D :=
  {| fillStyle := fillStyle ctx;
     calls := calls ctx ++ [FillRect (fillStyle ctx) x y w h] |}.

Record Canvas : Type := {
  width : R;
  height : R;
  styleOpacity : option R;
  context2d : Context2D
}.

(** The integral part of a number, toward zero. *)
Definition truncate (v : R) : Z :=
  if Rle_dec 0 v then Int_part v else (- Int_part (- v))%Z.

(** The conversion of a number to an [unsigned long]: truncated, then
    reduced modulo 2^32. *)
Definition toUint32 (v : R) : Z := (truncate v mod 4294967296)%Z.

(** What reads back from [canvas.width] or [canvas.height] after [v] was
    assigned to it.  The attribute of an HTMLCanvasElement is an
    [unsigned long] that reflects a content attribute limited to
    non-negative numbers: the converted value is kept when it is at most
    2147483647 and replaced by the attribute's default otherwise (300 for
    the width, 150 for the height). *)
Definition reflectedSize (default : Z) (v : R) : R :=
  let n := toUint32 v in
  if (n <=? 2147483647)%Z then IZR n else IZR default.

(** ** The effect instance *)

Record CardEffect : Type := {
  _canvas : Canvas;
  _options : CardEffectOptions;
  _squares : list Square.t;
  _mouseInCard : bool;
  _opacityTouchFactor : R;
  _maxPointDistance : R;
  _fadeSpeed : R
}.

(** [this._ctx] is the context of [this._canvas]: one object, two names. *)
Definition _ctx (s : CardEffect) : Context2D := context2d (_canvas s).

Definition setCanvas (c : Canvas) (s : CardEffect) : CardEffect :=
  {| _canvas := c; _options := _options s; _squares := _squares s;
     _mouseInCard := _mouseInCard s;
     _opacityTouchFactor := _opacityTouchFactor s;
     _maxPointDistance := _maxPointDistance s; _fadeSpeed := _fadeSpeed s |}.

Definition setCtx (ctx : Context2D) (s : CardEffect) : CardEffect :=
  setCanvas {| width := width (_canvas s); height := height (_canvas s);
               styleOpacity := styleOpacity (_canvas s);
               context2d := ctx |} s.

Definition setStyleOpacity (v : R) (s : CardEffect) : CardEffect :=
  setCanvas {| width := width (_canvas s); height := height (_canvas s);
               styleOpacity := Some v;
               context2d := context2d (_canvas s) |} s.

Definition setSquares (sqs : list Square.t) (s : CardEffect) : CardEffect :=
  {| _canvas := _canvas s; _options := _options s; _squares := sqs;
     _mouseInCard := _mouseInCard s;
     _opacityTouchFactor := _opacityTouchFactor s;
     _maxPointDistance := _maxPointDistance s; _fadeSpeed := _fadeSpeed s |}.

Definition setMouseInCard (v : bool) (s : CardEffect) : CardEffect :=
  {| _canvas := _canvas s; _options := _options s; _squares := _squares s;
     _mouseInCard := v;
     _opacityTouchFactor := _opacityTouchFactor s;
     _maxPointDistance := _maxPointDistance s; _fadeSpeed := _fadeSpeed s |}.

Definition setOpacityTouchFactor (v : R) (s : CardEffect) : CardEffect :=
  {| _canvas := _canvas s; _options := _options s; _squares := _squares s;
     _mouseInCard := _mouseInCard s;
     _opacityTouchFactor := v;
     _maxPointDistance := _maxPointDistance s; _fadeSpeed := _fadeSpeed s |}.

Definition setMaxPointDistance (v : R) (s : CardEffect) : CardEffect :=
  {| _canvas := _canvas s; _options := _options s; _squares := _squares s;
     _mouseInCard := _mouseInCard s;
     _opacityTouchFactor := _opacityTouchFactor s;
     _maxPointDistance := v; _fadeSpeed := _fadeSpeed s |}.

Definition setFadeSpeed (v : R) (s : CardEffect) : CardEffect :=
  {| _canvas := _canvas s; _options := _options s; _squares := _squares s;
     _mouseInCard := _mouseInCard s;
     _opacityTouchFactor := _opacityTouchFactor s;
     _maxPointDistance := _maxPointDistance s; _fadeSpeed := v |}.

(** ** Private helpers of the class *)

Definition _resetCanvas (s : CardEffect) : CardEffect :=
  setCtx (clearRect 0 0 (width (_canvas s)) (height (_canvas s)) (_ctx s)) s.

(** Reading [square.color.r] throws a [TypeError] when the color is
    [undefined]; otherwise the style is set and the rectangle filled. *)
Definition _drawSquare (s : CardEffect) (square : Square.t)
  : Result CardEffect :=
  match Square.color square with
  | None => Throw TypeError
  | Some c =>
      let style := Rgba (Color.r c) (Color.g c) (Color.b c)
                        (Square.opacity square) in
      Ok (setCtx (fillRect (Square.x square) (Square.y square)
                           (squareSize (_options s)) (squareSize (_options s))
                           (setFillStyle style (_ctx s))) s)
  end.

Definition _onMouseEnter (s : CardEffect) : CardEffect := setMouseInCard true s.

Definition _onMouseLeave (s : CardEffect) : CardEffect := setMouseInCard false s.

Definition _randomSpeed (o : CardEffectOptions) (rng : Rng) : R * Rng :=
  let (u, rng) := Math_random rng in
  (u * (maxPointFadeSpeed o - minPointFadeSpeed o + 1) + minPointFadeSpeed o,
   rng).

Definition _randomColor (o : CardEffectOptions) (rng : Rng)
  : option Color.t * Rng :=
  let (u, rng) := Math_random rng in
  let randomColor := Math_floor (u * INR (List.length (colors o))) in
  (arrayGet (colors o) randomColor, rng).

(** The body of the inner loop of [_resetSquaresPoints]. *)
Definition layoutCell (row col : nat) (st : CardEffect * Rng)
  : CardEffect * Rng :=
  let (s, rng) := st in
  let o := _options s in
  let x := INR col * (cellSize o + gapSize o) in
  let y := INR row * (cellSize o + gapSize o) in
  let squareX := x + (cellSize o - squareSize o) / 2 in
  let squareY := y + (cellSize o - squareSize o) / 2 in
  let distanceFromCenter :=
    sqrt ((squareX - width (_canvas s) / 2) ^ 2
          + (squareY - height (_canvas s) / 2) ^ 2) in
  let (speed, rng) := _randomSpeed o rng in
  let (color, rng) := _randomColor o rng in
  let s := setSquares
             (_squares s ++
              [ {| Square.x := squareX;
                   Square.y := squareY;
                   Square.opacity := 0;
                   Square.speed := speed;
                   Square.color := color;
                   Square.distanceFromCenter := distanceFromCenter |} ]) s in
  let s := if Rlt_dec (_maxPointDistance s) distanceFromCenter
           then setMaxPointDistance distanceFromCenter s
           else s in
  (s, rng).

Definition layoutRow (cols : list nat) (row : nat) (st : CardEffect * Rng)
  : CardEffect * Rng :=
  fold_left (fun st col => layoutCell row col st) cols st.

Definition layoutRows (rows cols : list nat) (st : CardEffect * Rng)
  : CardEffect * Rng :=
  fold_left (fun st row => layoutRow cols row st) rows st.

Definition _resetSquaresPoints (st : CardEffect * Rng) : CardEffect * Rng :=
  let (s, rng) := st in
  let s := setMaxPointDistance 0 s in
  let n := gridCells (_options s) in
  layoutRows (seq 0 n) (seq 0 n) (s, rng).

(** ** Construction *)

(** [new CardEffect(_canvas, _options)]; the draws consumed from
    [Math.random] are not returned. *)
Definition constructor (canvas : Canvas) (options : CardEffectOptions)
  (rng : Rng) : Result CardEffect :=
  if Rlt_dec (maxPointFadeSpeed options) (minPointFadeSpeed options) then
    Throw (Error "Max speed must be greater than min speed")
  else if Rle_dec (pointFadeSpeedFactor options) 0 then
    Throw (Error "Factor speed must be greater than 0")
  else
    let side :=
      INR (gridCells options) * (cellSize options + gapSize options)
      - gapSize options in
    let canvas := {| width := reflectedSize 300 side;
                     height := reflectedSize 150 side;
                     styleOpacity := styleOpacity canvas;
                     context2d := context2d canvas |} in
    let s := {| _canvas := canvas; _options := options; _squares := [];
                _mouseInCard := false; _opacityTouchFactor := 0;
                _maxPointDistance := 0; _fadeSpeed := 0 |} in
    Ok (fst (_resetSquaresPoints (s, rng))).

(** ** drawGrid *)

Fixpoint drawEach (s : CardEffect) (squares : list Square.t)
  : Result CardEffect :=
  match squares with
  | [] => Ok s
  | square :: rest => s' <- _drawSquare s square ;; drawEach s' rest
  end.

Definition drawGrid (s : CardEffect) : Result CardEffect :=
  drawEach (_resetCanvas s) (_squares s).

(** ** animateCardEffect *)

(** Lines 94-116: the two hover ramps. *)
Definition easing (s : CardEffect) : CardEffect :=
  if _mouseInCard s then
    let s := if Rlt_dec (_fadeSpeed s) 1
             then setFadeSpeed (_fadeSpeed s + fadeSpeedFactor (_options s)) s
             else setFadeSpeed 1 s in
    if Rlt_dec (_opacityTouchFactor s) 1
    then setOpacityTouchFactor
           (_opacityTouchFactor s + cardSpeedFactor (_options s)) s
    else setOpacityTouchFactor 1 s
  else
    let s := if Rgt_dec (_fadeSpeed s) 0
             then setFadeSpeed (_fadeSpeed s - fadeSpeedFactor (_options s)) s
             else setFadeSpeed 0 s in
    if Rgt_dec (_opacityTouchFactor s) 0
    then setOpacityTouchFactor
           (_opacityTouchFactor s - cardSpeedFactor (_options s)) s
    else setOpacityTouchFactor 0 s.

Definition setSpeed (v : R) (sq : Square.t) : Square.t :=
  {| Square.x := Square.x sq; Square.y := Square.y sq;
     Square.opacity := Square.opacity sq; Square.speed := v;
     Square.color := Square.color sq;
     Square.distanceFromCenter := Square.distanceFromCenter sq |}.

Definition setOpacity (v : R) (sq : Square.t) : Square.t :=
  {| Square.x := Square.x sq; Square.y := Square.y sq;
     Square.opacity := v; Square.speed := Square.speed sq;
     Square.color := Square.color sq;
     Square.distanceFromCenter := Square.distanceFromCenter sq |}.

(** [square.distanceFromCenter / this._maxPointDistance]. *)
Definition normalizedDistance (s : CardEffect) (square : Square.t) : JsNum :=
  jsDiv (Square.distanceFromCenter square) (_maxPointDistance s).

(** Lines 121-127: the wave gate. *)
Definition waveGate (s : CardEffect) (square : Square.t) : Square.t :=
  if jsGt (normalizedDistance s square) (_fadeSpeed s)
     && (if Rgt_dec (Square.speed square) 0 then true else false)
  then setSpeed (- Rabs (Square.speed square)) square
  else square.

(** Line 129: opacity integration. *)
Definition integrate (s : CardEffect) (square : Square.t) : Square.t :=
  setOpacity (Square.opacity square
              + Square.speed square * pointFadeSpeedFactor (_options s))
             square.

(** Lines 131-137: clamp and bounce. *)
Definition bounce (square : Square.t) : Square.t :=
  if Rgt_dec (Square.opacity square) 1 then
    setSpeed (- Square.speed square) (setOpacity 1 square)
  else if Rlt_dec (Square.opacity square) 0 then
    setSpeed (- Square.speed square) (setOpacity 0 square)
  else square.

(** Lines 121-137: what one frame does to one square before drawing it. *)
Definition updateSquare (s : CardEffect) (square : Square.t) : Square.t :=
  bounce (integrate s (waveGate s square)).

(** [this._squares.forEach]: each square is updated in place, then drawn.
    The updated squares are collected in order; the callback never reads
    [this._squares]. *)
Fixpoint forEachSquare (s : CardEffect) (squares : list Square.t)
  : Result (CardEffect * list Square.t) :=
  match squares with
  | [] => Ok (s, [])
  | square :: rest =>
      let square' := updateSquare s square in
      s1 <- _drawSquare s square' ;;
      ' (s2, rest') <- forEachSquare s1 rest ;;
      Ok (s2, square' :: rest')
  end.

Definition animateCardEffect (s : CardEffect) : Result CardEffect :=
  let s := _resetCanvas s in
  let s := easing s in
  let s := setStyleOpacity (_opacityTouchFactor s) s in
  ' (s, squares) <- forEachSquare s (_squares s) ;;
  Ok (setSquares squares s).

(** ** The instance in its environment *)

(** What can happen to an instance after construction: the two listeners
    registered by the constructor, a call of [drawGrid], and a frame
    ([animateCardEffect], called by the animation loop). *)
Inductive Event : Type :=
| MouseEnter
| MouseLeave
| DrawGrid
| Frame.

Definition handle (ev : Event) (s : CardEffect) : Result CardEffect :=
  match ev with
  | MouseEnter => Ok (_onMouseEnter s)
  | MouseLeave => Ok (_onMouseLeave s)
  | DrawGrid => drawGrid s
  | Frame => animateCardEffect s
  end.

Fixpoint run (evs : list Event) (s : CardEffect) : Result CardEffect :=
  match evs with
  | [] => Ok s
  | ev :: rest => s' <- handle ev s ;; run rest s'
  end.

(** * Vocabulary of the properties *)

Ltac decide_reals :=
  repeat match goal with
  | |- context [Rlt_dec ?a ?b] => destruct (Rlt_dec a b); cbn in *; try lra
  | |- context [Rgt_dec ?a ?b] => destruct (Rgt_dec a b); cbn in *; try lra
  | |- context [Rle_dec ?a ?b] => destruct (Rle_dec a b); cbn in *; try lra
  | |- context [Req_dec_T ?a ?b] =>
      destruct (Req_dec_T a b); cbn in *; try lra
  end.

Definition hasColor (sq : Square.t) : Prop := Square.color sq <> None.

(** The fields the per-square update reads. *)
Definition sameParams (s t : CardEffect) : Prop :=
  _options s = _options t /\
  _maxPointDistance s = _maxPointDistance t /\
  _fadeSpeed s = _fadeSpeed t.

(** Everything of the instance except its drawing context. *)
Definition sameButCtx (s t : CardEffect) : Prop :=
  _options s = _options t /\
  _squares s = _squares t /\
  _mouseInCard s = _mouseInCard t /\
  _opacityTouchFactor s = _opacityTouchFactor t /\
  _maxPointDistance s = _maxPointDistance t /\
  _fadeSpeed s = _fadeSpeed t /\
  width (_canvas s) = width (_canvas t) /\
  height (_canvas s) = height (_canvas t) /\
  styleOpacity (_canvas s) = styleOpacity (_canvas t).

(** Position and distance of a square, the part of it the layout computes
    without [Math.random]. *)
Definition geometry (sq : Square.t) : R * R * R :=
  (Square.x sq, Square.y sq, Square.distanceFromCenter sq).

(** The running maximum kept in [_maxPointDistance]. *)
Definition runMax (m : R) (ds : list R) : R :=
  fold_left (fun m d => if Rlt_dec m d then d else m) ds m.

(** What a stretch of the layout loop has done to the instance: it appended
    [news] and folded their distances into the maximum. *)
Definition appended (st st' : CardEffect * Rng) (news : list Square.t)
  : Prop :=
  _squares (fst st') = _squares (fst st) ++ news /\
  _maxPointDistance (fst st')
  = runMax (_maxPointDistance (fst st))
           (map Square.distanceFromCenter news) /\
  _canvas (fst st') = _canvas (fst st) /\
  _options (fst st') = _options (fst st) /\
  _mouseInCard (fst st') = _mouseInCard (fst st) /\
  _opacityTouchFactor (fst st') = _opacityTouchFactor (fst st) /\
  _fadeSpeed (fst st') = _fadeSpeed (fst st) /\
  draws (snd st') = draws (snd st).

(** The position and distance computed for the cell at [row], [col]. *)
Definition cellGeometry (o : CardEffectOptions) (w h : R) (row col : nat)
  : R * R * R :=
  let squareX :=
    INR col * (cellSize o + gapSize o) + (cellSize o - squareSize o) / 2 in
  let squareY :=
    INR row * (cellSize o + gapSize o) + (cellSize o - squareSize o) / 2 in
  (squareX, squareY,
   sqrt ((squareX - w / 2) ^ 2 + (squareY - h / 2) ^ 2)).

(** What every square is created with. *)
Definition fresh (o : CardEffectOptions) (draw : nat -> R) (sq : Square.t)
  : Prop :=
  Square.opacity sq = 0 /\
  0 <= Square.distanceFromCenter sq /\
  (exists i j,
     Square.speed sq
     = draw i * (maxPointFadeSpeed o - minPointFadeSpeed o + 1)
       + minPointFadeSpeed o /\
     Square.color sq
     = arrayGet (colors o) (Math_floor (draw j * INR (List.length (colors o))))).

(** The side of the surface, as the constructor assigns it to the width
    and to the height of the canvas. *)
Definition side (o : CardEffectOptions) : R :=
  INR (gridCells o) * (cellSize o + gapSize o) - gapSize o.

(** The width and the height of the canvas as they read back after the
    constructor assigned [side] to them. *)
Definition canvasWidth (o : CardEffectOptions) : R :=
  reflectedSize 300 (side o).

Definition canvasHeight (o : CardEffectOptions) : R :=
  reflectedSize 150 (side o).

(** A side that reads back as it was assigned: an integer from 0 to
    2147483647. *)
Definition integralSide (o : CardEffectOptions) : Prop :=
  exists n : Z, (0 <= n <= 2147483647)%Z /\ side o = IZR n.

Definition validOptions (o : CardEffectOptions) : Prop :=
  ~ maxPointFadeSpeed o < minPointFadeSpeed o /\
  ~ pointFadeSpeedFactor o <= 0.

(** A canvas element as the page creates it, before the constructor sizes
    it. *)
Definition blankCanvas : Canvas := {|
  width := 300;
  height := 150;
  styleOpacity := None;
  context2d := {| fillStyle := InitialFill; calls := [] |}
|}.

(** A stream whose every draw is one half. *)
Definition halfRng : Rng := {| draws := fun _ => / 2; cursor := 0 |}.

(** The 2 x 2 scenario: [gridCells = 2], [cellSize = 10], [gapSize = 0],
    [squareSize = 10], the other options as in [DEFAULT_OPTIONS]. *)
Definition scenarioOptions : CardEffectOptions := {|
  cellSize := 10;
  gapSize := 0;
  gridCells := 2;
  squareSize := 10;
  minPointFadeSpeed := minPointFadeSpeed DEFAULT_OPTIONS;
  maxPointFadeSpeed := maxPointFadeSpeed DEFAULT_OPTIONS;
  pointFadeSpeedFactor := pointFadeSpeedFactor DEFAULT_OPTIONS;
  cardSpeedFactor := cardSpeedFactor DEFAULT_OPTIONS;
  fadeSpeedFactor := fadeSpeedFactor DEFAULT_OPTIONS;
  colors := colors DEFAULT_OPTIONS
|}.


(** What every event preserves: the configuration, the maximal distance,
    and, square by square, everything but opacity and the sign of speed. *)
Definition sameShape (s s' : CardEffect) : Prop :=
  _options s' = _options s /\
  _maxPointDistance s' = _maxPointDistance s /\
  Forall2 (fun sq sq' =>
             Square.x sq' = Square.x sq /\
             Square.y sq' = Square.y sq /\
             Square.color sq' = Square.color sq /\
             Square.distanceFromCenter sq' = Square.distanceFromCenter sq /\
             Rabs (Square.speed sq') = Rabs (Square.speed sq))
          (_squares s) (_squares s').

Definition opacityInRange (sq : Square.t) : Prop :=
  0 <= Square.opacity sq <= 1.


(** The [fillRect] call made for one square. *)
Definition fillCall (size : R) (sq : Square.t) : list DrawCall :=
  match Square.color sq with
  | Some c =>
      [FillRect (Rgba (Color.r c) (Color.g c) (Color.b c) (Square.opacity sq))
                (Square.x sq) (Square.y sq) size size]
  | None => []
  end.

(** The calls of one [drawGrid]: one clear, then one fill per square. *)
Definition gridCalls (s : CardEffect) : list DrawCall :=
  ClearRect 0 0 (width (_canvas s)) (height (_canvas s))
  :: flat_map (fillCall (squareSize (_options s))) (_squares s).

(** One step of a ramp while hovering, and while not hovering
    (lines 95-104 and 106-115). *)
Definition rampUp (f v : R) : R := if Rlt_dec v 1 then v + f else 1.

Definition rampDown (f v : R) : R := if Rgt_dec v 0 then v - f else 0.

(** [Math.ceil], for the bound [ceil(1 / factor)]. *)
Definition ceil (v : R) : Z := (- Int_part (- v))%Z.

(** A square whose color is [undefined]. *)
Definition noColor (sq : Square.t) : Prop := Square.color sq = None.

(** What a run of events never touches in a square. *)
Definition sameSquareShape (sq sq' : Square.t) : Prop :=
  Square.x sq' = Square.x sq /\
  Square.y sq' = Square.y sq /\
  Square.color sq' = Square.color sq /\
  Square.distanceFromCenter sq' = Square.distanceFromCenter sq /\
  Rabs (Square.speed sq') = Rabs (Square.speed sq).

(** The square was created from the draws at positions [k] (speed) and
    [k + 1] (color) of the stream. *)
Definition fromDraws (o : CardEffectOptions) (draw : nat -> R) (k : nat)
  (sq : Square.t) : Prop :=
  Square.speed sq
  = draw k * (maxPointFadeSpeed o - minPointFadeSpeed o + 1)
    + minPointFadeSpeed o /\
  Square.color sq
  = arrayGet (colors o)
      (Math_floor (draw (S k) * INR (List.length (colors o)))).

(** A number of frames after which a ramp of step [f] rests at its target:
    two more than [ceil(1 / f)], the frame that snaps the ramp back onto the
    target and one frame to spare. *)
Definition settleFrames (f : R) : nat := S (S (Z.to_nat (ceil (1 / f)))).

(** The default options with an empty palette. *)
Definition emptyPaletteOptions : CardEffectOptions := {|
  cellSize := cellSize DEFAULT_OPTIONS;
  gapSize := gapSize DEFAULT_OPTIONS;
  gridCells := gridCells DEFAULT_OPTIONS;
  squareSize := squareSize DEFAULT_OPTIONS;
  minPointFadeSpeed := minPointFadeSpeed DEFAULT_OPTIONS;
  maxPointFadeSpeed := maxPointFadeSpeed DEFAULT_OPTIONS;
  pointFadeSpeedFactor := pointFadeSpeedFactor DEFAULT_OPTIONS;
  cardSpeedFactor := cardSpeedFactor DEFAULT_OPTIONS;
  fadeSpeedFactor := fadeSpeedFactor DEFAULT_OPTIONS;
  colors := []
|}.

(** The default options with no cell at all, a gap of 20 and an empty
    palette. *)
Definition emptyGridOptions : CardEffectOptions := {|
  cellSize := cellSize DEFAULT_OPTIONS;
  gapSize := 20;
  gridCells := 0;
  squareSize := squareSize DEFAULT_OPTIONS;
  minPointFadeSpeed := minPointFadeSpeed DEFAULT_OPTIONS;
  maxPointFadeSpeed := maxPointFadeSpeed DEFAULT_OPTIONS;
  pointFadeSpeedFactor := pointFadeSpeedFactor DEFAULT_OPTIONS;
  cardSpeedFactor := cardSpeedFactor DEFAULT_OPTIONS;
  fadeSpeedFactor := fadeSpeedFactor DEFAULT_OPTIONS;
  colors := []
|}.

(** A single cell of size 5.5 with an empty square: the side of the
    surface is not an integer. *)
Definition fractionalOptions : CardEffectOptions := {|
  cellSize := 5.5;
  gapSize := 0;
  gridCells := 1;
  squareSize := 0;
  minPointFadeSpeed := minPointFadeSpeed DEFAULT_OPTIONS;
  maxPointFadeSpeed := maxPointFadeSpeed DEFAULT_OPTIONS;
  pointFadeSpeedFactor := pointFadeSpeedFactor DEFAULT_OPTIONS;
  cardSpeedFactor := cardSpeedFactor DEFAULT_OPTIONS;
  fadeSpeedFactor := fadeSpeedFactor DEFAULT_OPTIONS;
  colors := colors DEFAULT_OPTIONS
|}.

(** The 2 x 2 scenario with a wave front that does not move. *)
Definition frozenOptions : CardEffectOptions := {|
  cellSize := cellSize scenarioOptions;
  gapSize := gapSize scenarioOptions;
  gridCells := gridCells scenarioOptions;
  squareSize := squareSize scenarioOptions;
  minPointFadeSpeed := minPointFadeSpeed scenarioOptions;
  maxPointFadeSpeed := maxPointFadeSpeed scenarioOptions;
  pointFadeSpeedFactor := pointFadeSpeedFactor scenarioOptions;
  cardSpeedFactor := cardSpeedFactor scenarioOptions;
  fadeSpeedFactor := 0;
  colors := colors scenarioOptions
|}.

(** * Properties *)

(** ** Decisions on reals *)

Lemma jsDiv_pos (a b : R) : b <> 0 -> jsDiv a b = Finite (a / b).
Proof. intros Hb. unfold jsDiv. destruct (Req_dec_T b 0); [contradiction | reflexivity]. Qed.


Lemma jsGt_Finite (v w : R) : jsGt (Finite v) w = true <-> v > w.
Proof. simpl. destruct (Rgt_dec v w); split; intros; try lra; congruence. Qed.

(** ** Fields a frame leaves alone *)

Lemma sameParams_refl (s : CardEffect) : sameParams s s.
Proof. repeat split. Qed.

Lemma sameParams_trans (s t u : CardEffect) :
  sameParams s t -> sameParams t u -> sameParams s u.
Proof. unfold sameParams. intuition congruence. Qed.

Lemma updateSquare_sameParams (s t : CardEffect) (sq : Square.t) :
  sameParams s t -> updateSquare s sq = updateSquare t sq.
Proof.
  intros (Ho & Hm & Hf).
  unfold updateSquare, integrate, waveGate, normalizedDistance.
  rewrite Ho, Hm, Hf. reflexivity.
Qed.

Lemma sameButCtx_refl (s : CardEffect) : sameButCtx s s.
Proof. repeat split. Qed.

Lemma sameButCtx_trans (s t u : CardEffect) :
  sameButCtx s t -> sameButCtx t u -> sameButCtx s u.
Proof. unfold sameButCtx. intuition congruence. Qed.

Lemma sameButCtx_params (s t : CardEffect) : sameButCtx s t -> sameParams s t.
Proof. unfold sameButCtx, sameParams. intuition. Qed.

Lemma resetCanvas_sameButCtx (s : CardEffect) : sameButCtx s (_resetCanvas s).
Proof. repeat split. Qed.

Lemma drawSquare_Ok (s s' : CardEffect) (sq : Square.t) :
  _drawSquare s sq = Ok s' ->
  exists c, Square.color sq = Some c /\
    s' = setCtx (fillRect (Square.x sq) (Square.y sq)
                   (squareSize (_options s)) (squareSize (_options s))
                   (setFillStyle
                      (Rgba (Color.r c) (Color.g c) (Color.b c)
                            (Square.opacity sq)) (_ctx s))) s.
Proof.
  unfold _drawSquare. destruct (Square.color sq) as [c|]; [|discriminate].
  intros H. injection H as <-. exists c. split; reflexivity.
Qed.

Lemma drawSquare_sameButCtx (s s' : CardEffect) (sq : Square.t) :
  _drawSquare s sq = Ok s' -> sameButCtx s s'.
Proof.
  intros H. apply drawSquare_Ok in H. destruct H as (c & _ & ->).
  repeat split.
Qed.

Lemma drawSquare_total (s : CardEffect) (sq : Square.t) :
  hasColor sq -> exists s', _drawSquare s sq = Ok s'.
Proof.
  unfold hasColor, _drawSquare. destruct (Square.color sq); [eauto | congruence].
Qed.

Lemma updateSquare_color (s : CardEffect) (sq : Square.t) :
  Square.color (updateSquare s sq) = Square.color sq.
Proof.
  unfold updateSquare, bounce, integrate, waveGate.
  destruct (_ && _); simpl; decide_reals; reflexivity.
Qed.

(** ** The forEach loop of a frame *)

Lemma forEachSquare_Ok (sqs : list Square.t) :
  forall (s s' : CardEffect) (out : list Square.t),
    forEachSquare s sqs = Ok (s', out) ->
    out = map (updateSquare s) sqs /\ sameButCtx s s' /\ Forall hasColor sqs.
Proof.
  induction sqs as [|sq rest IH]; intros s s' out H; simpl in H.
  - injection H as <- <-. repeat split. constructor.
  - destruct (_drawSquare s (updateSquare s sq)) as [s1|e] eqn:Hd;
      simpl in H; [|discriminate].
    destruct (forEachSquare s1 rest) as [[s2 rest']|e] eqn:Hr;
      simpl in H; [|discriminate].
    injection H as <- <-.
    pose proof (drawSquare_sameButCtx _ _ _ Hd) as H1.
    destruct (IH _ _ _ Hr) as (-> & H2 & Hc).
    split; [|split].
    + simpl. f_equal. apply map_ext. intros a.
      symmetry. apply updateSquare_sameParams, sameButCtx_params, H1.
    + eapply sameButCtx_trans; eassumption.
    + constructor; [|exact Hc].
      apply drawSquare_Ok in Hd. destruct Hd as (c & Hcol & _).
      unfold hasColor. rewrite <- (updateSquare_color s sq). congruence.
Qed.

Lemma forEachSquare_total (sqs : list Square.t) :
  forall s : CardEffect, Forall hasColor sqs ->
    exists r, forEachSquare s sqs = Ok r.
Proof.
  induction sqs as [|sq rest IH]; intros s Hc; simpl.
  - eauto.
  - inversion Hc as [|? ? Hsq Hrest]; subst.
    destruct (drawSquare_total s (updateSquare s sq)) as [s1 ->].
    { unfold hasColor. rewrite updateSquare_color. exact Hsq. }
    simpl. destruct (IH s1 Hrest) as [[s2 rest'] ->]. simpl. eauto.
Qed.

(** ** One frame *)

Lemma easing_frame (s : CardEffect) :
  _options (easing s) = _options s /\
  _squares (easing s) = _squares s /\
  _mouseInCard (easing s) = _mouseInCard s /\
  _maxPointDistance (easing s) = _maxPointDistance s /\
  _canvas (easing s) = _canvas s.
Proof.
  destruct s as [cv o sqs m otf mpd fs].
  unfold easing. simpl. destruct m; simpl; decide_reals; simpl; auto.
Qed.

Lemma easing_resetCanvas (s : CardEffect) :
  easing (_resetCanvas s) = _resetCanvas (easing s).
Proof.
  destruct s as [cv o sqs m otf mpd fs].
  unfold easing, _resetCanvas, setCtx, setCanvas, _ctx. simpl.
  destruct m; simpl; decide_reals; reflexivity.
Qed.

(** What a frame that completes has done. *)
Lemma animate_Ok (s s' : CardEffect) :
  animateCardEffect s = Ok s' ->
  _squares s' = map (updateSquare (easing s)) (_squares s) /\
  _options s' = _options s /\
  _mouseInCard s' = _mouseInCard s /\
  _maxPointDistance s' = _maxPointDistance s /\
  _fadeSpeed s' = _fadeSpeed (easing s) /\
  _opacityTouchFactor s' = _opacityTouchFactor (easing s) /\
  Forall hasColor (_squares s).
Proof.
  unfold animateCardEffect. intros H.
  set (g := setStyleOpacity _ _) in H.
  destruct (forEachSquare g (_squares g)) as [[s2 out]|e] eqn:Hf;
    simpl in H; [|discriminate].
  injection H as <-.
  apply forEachSquare_Ok in Hf. destruct Hf as (-> & Hs & Hc).
  assert (Hg : _options (easing s) = _options g /\
               _squares (easing s) = _squares g /\
               _mouseInCard (easing s) = _mouseInCard g /\
               _opacityTouchFactor (easing s) = _opacityTouchFactor g /\
               _maxPointDistance (easing s) = _maxPointDistance g /\
               _fadeSpeed (easing s) = _fadeSpeed g).
  { subst g. rewrite easing_resetCanvas. repeat split. }
  destruct (easing_frame s) as (Eo & Es & Em & Ed & _).
  destruct Hg as (G1 & G2 & G3 & G4 & G5 & G6).
  destruct Hs as (S1 & S2 & S3 & S4 & S5 & S6 & _).
  rewrite <- G2, Es in *.
  change (_squares (setSquares (map (updateSquare g) (_squares s)) s2))
    with (map (updateSquare g) (_squares s)).
  change (_options (setSquares (map (updateSquare g) (_squares s)) s2))
    with (_options s2).
  change (_mouseInCard (setSquares (map (updateSquare g) (_squares s)) s2))
    with (_mouseInCard s2).
  change (_maxPointDistance
            (setSquares (map (updateSquare g) (_squares s)) s2))
    with (_maxPointDistance s2).
  change (_fadeSpeed (setSquares (map (updateSquare g) (_squares s)) s2))
    with (_fadeSpeed s2).
  change (_opacityTouchFactor
            (setSquares (map (updateSquare g) (_squares s)) s2))
    with (_opacityTouchFactor s2).
  repeat split; try congruence.
  apply map_ext. intros a. symmetry.
  apply updateSquare_sameParams. repeat split; congruence.
Qed.

Lemma animate_total (s : CardEffect) :
  Forall hasColor (_squares s) -> exists s', animateCardEffect s = Ok s'.
Proof.
  intros Hc. unfold animateCardEffect.
  set (g := setStyleOpacity _ _).
  assert (Hsq : _squares g = _squares s).
  { subst g. simpl. rewrite easing_resetCanvas. simpl.
    apply (easing_frame s). }
  destruct (forEachSquare_total (_squares g) g) as [[s2 out] ->].
  { rewrite Hsq. exact Hc. }
  simpl. eauto.
Qed.

(** ** Grid layout *)

Lemma runMax_app (m : R) (ds es : list R) :
  runMax m (ds ++ es) = runMax (runMax m ds) es.
Proof. unfold runMax. apply fold_left_app. Qed.

Lemma runMax_ge (ds : list R) : forall m, m <= runMax m ds.
Proof.
  induction ds as [|d ds IH]; intros m; simpl.
  - lra.
  - unfold runMax in *. simpl.
    destruct (Rlt_dec m d); [specialize (IH d) | specialize (IH m)]; lra.
Qed.

Lemma runMax_bounds (ds : list R) :
  forall m, Forall (fun d => d <= runMax m ds) ds.
Proof.
  induction ds as [|d ds IH]; intros m; constructor.
  - change (runMax m (d :: ds))
      with (runMax (if Rlt_dec m d then d else m) ds).
    destruct (Rlt_dec m d).
    + apply runMax_ge.
    + pose proof (runMax_ge ds m). lra.
  - apply IH.
Qed.

Lemma appended_nil (st : CardEffect * Rng) : appended st st [].
Proof. unfold appended. rewrite app_nil_r. repeat split. Qed.

Lemma appended_trans (st1 st2 st3 : CardEffect * Rng)
  (xs ys : list Square.t) :
  appended st1 st2 xs -> appended st2 st3 ys -> appended st1 st3 (xs ++ ys).
Proof.
  intros (A1 & A2 & A3 & A4 & A5 & A6 & A7 & A8)
         (B1 & B2 & B3 & B4 & B5 & B6 & B7 & B8).
  unfold appended. rewrite map_app, runMax_app, app_assoc.
  repeat split; congruence.
Qed.

Lemma layoutCell_appended (row col : nat) (st : CardEffect * Rng) :
  exists sq,
    appended st (layoutCell row col st) [sq] /\
    geometry sq
    = cellGeometry (_options (fst st)) (width (_canvas (fst st)))
        (height (_canvas (fst st))) row col /\
    fresh (_options (fst st)) (draws (snd st)) sq.
Proof.
  destruct st as [[cv o sqs m otf mpd fs] [dr cu]].
  unfold layoutCell, _randomSpeed, _randomColor, Math_random, appended,
    runMax, fresh, geometry, cellGeometry, setSquares, setMaxPointDistance.
  cbn -[pow sqrt Rlt_dec INR Math_floor arrayGet].
  eexists. split; [|split].
  - destruct (Rlt_dec mpd _) as [Hlt|Hge];
      (split; [reflexivity|]);
      cbn -[pow sqrt Rlt_dec INR Math_floor arrayGet];
      (destruct (Rlt_dec mpd _); try contradiction);
      repeat split.
  - reflexivity.
  - cbn -[pow sqrt Rlt_dec INR Math_floor arrayGet].
    split; [reflexivity|]. split; [apply sqrt_pos|].
    eexists _, _. split; reflexivity.
Qed.

Lemma layoutRow_appended (row : nat) (cols : list nat) :
  forall st : CardEffect * Rng,
  exists news,
    appended st (layoutRow cols row st) news /\
    map geometry news
    = map (cellGeometry (_options (fst st)) (width (_canvas (fst st)))
             (height (_canvas (fst st))) row) cols /\
    Forall (fresh (_options (fst st)) (draws (snd st))) news.
Proof.
  induction cols as [|col cols IH]; intros st.
  - exists []. split; [apply appended_nil|]. split; [reflexivity|constructor].
  - destruct (layoutCell_appended row col st) as (sq & A & G & F).
    destruct (IH (layoutCell row col st)) as (news & A' & G' & F').
    pose proof A as (_ & _ & Ec & Eo & _ & _ & _ & Ed).
    rewrite Ec, Eo, Ed in *.
    exists (sq :: news). split; [|split].
    + change (sq :: news) with ([sq] ++ news).
      eapply appended_trans; [exact A | exact A'].
    + simpl. rewrite G, G'. reflexivity.
    + constructor; assumption.
Qed.

Lemma layoutRows_appended (cols rows : list nat) :
  forall st : CardEffect * Rng,
  exists news,
    appended st (layoutRows rows cols st) news /\
    map geometry news
    = flat_map
        (fun row =>
           map (cellGeometry (_options (fst st)) (width (_canvas (fst st)))
                  (height (_canvas (fst st))) row) cols) rows /\
    Forall (fresh (_options (fst st)) (draws (snd st))) news.
Proof.
  induction rows as [|row rows IH]; intros st.
  - exists []. split; [apply appended_nil|]. split; [reflexivity|constructor].
  - destruct (layoutRow_appended row cols st) as (xs & A & G & F).
    destruct (IH (layoutRow cols row st)) as (ys & A' & G' & F').
    pose proof A as (_ & _ & Ec & Eo & _ & _ & _ & Ed).
    rewrite Ec, Eo, Ed in *.
    exists (xs ++ ys). split; [|split].
    + eapply appended_trans; [exact A | exact A'].
    + simpl. rewrite map_app, G, G'. reflexivity.
    + apply Forall_app. split; assumption.
Qed.

Lemma Int_part_IZR (n : Z) : Int_part (IZR n) = n.
Proof. symmetry. apply Int_part_spec. lra. Qed.

(** An integer from 0 to 2147483647 reads back as it was assigned. *)
Lemma reflectedSize_integer (default n : Z) :
  (0 <= n <= 2147483647)%Z -> reflectedSize default (IZR n) = IZR n.
Proof.
  intros Hn. unfold reflectedSize, toUint32, truncate.
  destruct (Rle_dec 0 (IZR n)) as [|Hneg].
  - rewrite Int_part_IZR, Z.mod_small by lia.
    destruct (Z.leb_spec n 2147483647); [reflexivity | lia].
  - exfalso. apply Hneg. apply IZR_le. lia.
Qed.

Lemma integralSide_canvas (o : CardEffectOptions) :
  integralSide o -> canvasWidth o = side o /\ canvasHeight o = side o.
Proof.
  intros (n & Hn & Hs). unfold canvasWidth, canvasHeight.
  rewrite Hs, !reflectedSize_integer by exact Hn. split; reflexivity.
Qed.

(** With an integral cell size and gap, a side from 0 to 2147483647 reads
    back as it was assigned. *)
Lemma integer_cells_integralSide (o : CardEffectOptions) (a b : Z) :
  cellSize o = IZR a -> gapSize o = IZR b ->
  0 <= side o <= 2147483647 ->
  integralSide o.
Proof.
  intros Ha Hb Hs.
  assert (E : side o = IZR (Z.of_nat (gridCells o) * (a + b) - b)).
  { unfold side. rewrite Ha, Hb, INR_IZR_INZ, minus_IZR, mult_IZR, plus_IZR.
    reflexivity. }
  exists (Z.of_nat (gridCells o) * (a + b) - b)%Z. split; [|exact E].
  rewrite E in Hs. destruct Hs as [H0 H1].
  split; apply le_IZR; assumption.
Qed.

(** What construction yields on a configuration that passes validation. *)
Lemma constructor_Ok (canvas : Canvas) (o : CardEffectOptions) (rng : Rng)
  (s : CardEffect) :
  constructor canvas o rng = Ok s ->
  validOptions o /\
  _options s = o /\
  width (_canvas s) = canvasWidth o /\
  height (_canvas s) = canvasHeight o /\
  _mouseInCard s = false /\
  _opacityTouchFactor s = 0 /\
  _fadeSpeed s = 0 /\
  _maxPointDistance s
  = runMax 0 (map Square.distanceFromCenter (_squares s)) /\
  map geometry (_squares s)
  = flat_map
      (fun row => map (cellGeometry o (canvasWidth o) (canvasHeight o) row)
                      (seq 0 (gridCells o)))
      (seq 0 (gridCells o)) /\
  Forall (fresh o (draws rng)) (_squares s).
Proof.
  unfold constructor.
  destruct (Rlt_dec _ _) as [|Hs]; [discriminate|].
  destruct (Rle_dec _ _) as [|Hf]; [discriminate|].
  intros H. injection H as <-.
  unfold _resetSquaresPoints.
  match goal with
  | |- context [layoutRows ?rows ?cols ?st] =>
      destruct (layoutRows_appended cols rows st)
        as (news & (A1 & A2 & A3 & A4 & A5 & A6 & A7 & A8) & G & F)
  end.
  cbn [fst snd] in *.
  rewrite A1, A2, A3, A4, A5, A6, A7. cbn.
  repeat split; try assumption.
Qed.

Lemma constructor_total (canvas : Canvas) (o : CardEffectOptions) (rng : Rng) :
  validOptions o -> exists s, constructor canvas o rng = Ok s.
Proof.
  intros (Hs & Hf). unfold constructor.
  destruct (Rlt_dec _ _); [contradiction|].
  destruct (Rle_dec _ _); [contradiction|]. eauto.
Qed.

Lemma length_grid {A : Type} (f : nat -> nat -> A) (rows cols : list nat) :
  List.length (flat_map (fun row => map (f row) cols) rows)
  = (List.length rows * List.length cols)%nat.
Proof.
  induction rows as [|row rows IH]; simpl.
  - reflexivity.
  - rewrite length_app, length_map, IH. reflexivity.
Qed.

Lemma constructor_length (canvas : Canvas) (o : CardEffectOptions) (rng : Rng)
  (s : CardEffect) :
  constructor canvas o rng = Ok s ->
  List.length (_squares s) = (gridCells o * gridCells o)%nat.
Proof.
  intros H. apply constructor_Ok in H.
  destruct H as (_ & _ & _ & _ & _ & _ & _ & _ & G & _).
  rewrite <- (length_map geometry), G, length_grid, length_seq.
  reflexivity.
Qed.

(** ** Construction *)

(** C4. Construction throws exactly when
    [maxPointFadeSpeed < minPointFadeSpeed] or [pointFadeSpeedFactor <= 0]
    (a thrown construction yields no instance at all); exactly otherwise it
    returns an instance, and that instance holds [gridCells * gridCells]
    squares. *)
Theorem construction_validation
  (canvas : Canvas) (o : CardEffectOptions) (rng : Rng) :
  ((exists e, constructor canvas o rng = Throw e)
   <-> (maxPointFadeSpeed o < minPointFadeSpeed o
        \/ pointFadeSpeedFactor o <= 0))
  /\
  ((exists s, constructor canvas o rng = Ok s
              /\ List.length (_squares s) = (gridCells o * gridCells o)%nat)
   <-> ~ (maxPointFadeSpeed o < minPointFadeSpeed o
          \/ pointFadeSpeedFactor o <= 0)).
Proof.
  assert (Hdec : (maxPointFadeSpeed o < minPointFadeSpeed o
                  \/ pointFadeSpeedFactor o <= 0) \/ validOptions o).
  { unfold validOptions.
    destruct (Rlt_dec (maxPointFadeSpeed o) (minPointFadeSpeed o));
      destruct (Rle_dec (pointFadeSpeedFactor o) 0); tauto. }
  assert (Hthrow : (maxPointFadeSpeed o < minPointFadeSpeed o
                    \/ pointFadeSpeedFactor o <= 0) ->
                   exists e, constructor canvas o rng = Throw e).
  { intros Hbad. unfold constructor.
    destruct (Rlt_dec _ _); [eauto|].
    destruct (Rle_dec _ _); [eauto|]. tauto. }
  split; split.
  - intros [e He]. destruct Hdec as [Hbad|Hval]; [exact Hbad|].
    destruct (constructor_total canvas o rng Hval) as [s Hs]. congruence.
  - exact Hthrow.
  - intros (s & Hs & _) Hbad. destruct (Hthrow Hbad) as [e He]. congruence.
  - intros Hgood. destruct Hdec as [Hbad|Hval]; [contradiction|].
    destruct (constructor_total canvas o rng Hval) as [s Hs].
    exists s. split; [exact Hs|]. eapply constructor_length, Hs.
Qed.

(** ** Grid geometry *)

Lemma sqrt_200_gt_10 : 10 < sqrt 200.
Proof.
  replace 10 with (sqrt (10 * 10)) at 1 by (apply sqrt_square; lra).
  apply sqrt_lt_1; lra.
Qed.

(** The layout of the 2 x 2 grid with [cellSize = 10], [gapSize = 0],
    [squareSize = 10]. *)
Lemma layout_2x2 (o : CardEffectOptions) (sqs : list Square.t) :
  gridCells o = 2%nat -> cellSize o = 10 -> gapSize o = 0 ->
  squareSize o = 10 ->
  map geometry sqs
  = flat_map
      (fun row => map (cellGeometry o (canvasWidth o) (canvasHeight o) row)
                      (seq 0 (gridCells o)))
      (seq 0 (gridCells o)) ->
  side o = 20 /\
  canvasWidth o = 20 /\
  canvasHeight o = 20 /\
  runMax 0 (map Square.distanceFromCenter sqs) = sqrt 200 /\
  exists s0 s1 s2 s3,
    sqs = [s0; s1; s2; s3] /\
    geometry s0 = (0, 0, sqrt 200) /\
    geometry s1 = (10, 0, 10) /\
    geometry s2 = (0, 10, 10) /\
    geometry s3 = (10, 10, 0).
Proof.
  intros Hn Hc Hg Hq G.
  assert (Hside : side o = 20).
  { unfold side. rewrite Hn, Hc, Hg. simpl. lra. }
  assert (Hint : integralSide o) by (exists 20%Z; split; [lia | exact Hside]).
  destruct (integralSide_canvas o Hint) as (Hcw & Hch).
  rewrite Hside in Hcw, Hch.
  split; [exact Hside|]. split; [exact Hcw|]. split; [exact Hch|].
  unfold cellGeometry in G.
  rewrite Hcw, Hch, Hn, Hc, Hg, Hq in G. simpl in G.
  destruct sqs as [|s0 [|s1 [|s2 [|s3 [|s4 rest]]]]]; try discriminate G.
  unfold geometry in G. simpl in G.
  injection G as X0 Y0 D0 X1 Y1 D1 X2 Y2 D2 X3 Y3 D3.
  assert (E0 : Square.distanceFromCenter s0 = sqrt 200).
  { rewrite D0. f_equal. lra. }
  assert (E1 : Square.distanceFromCenter s1 = 10).
  { rewrite D1. transitivity (sqrt (10 * 10));
      [f_equal; lra | apply sqrt_square; lra]. }
  assert (E2 : Square.distanceFromCenter s2 = 10).
  { rewrite D2. transitivity (sqrt (10 * 10));
      [f_equal; lra | apply sqrt_square; lra]. }
  assert (E3 : Square.distanceFromCenter s3 = 0).
  { rewrite D3. transitivity (sqrt 0); [f_equal; lra | apply sqrt_0]. }
  split.
  - unfold runMax. simpl. rewrite E0, E1, E2, E3.
    pose proof sqrt_200_gt_10 as Hgt.
    repeat match goal with
    | |- context [Rlt_dec ?a ?b] =>
        (destruct (Rlt_dec a b); [|exfalso; lra])
        || (destruct (Rlt_dec a b); [exfalso; lra|])
    end.
    reflexivity.
  - exists s0, s1, s2, s3. unfold geometry.
    rewrite X0, Y0, X1, Y1, X2, Y2, X3, Y3, E0, E1, E2, E3.
    split; [reflexivity|].
    repeat split; repeat (f_equal; try lra).
Qed.

(** C7 (amended). The layout places the squares row by row; the square
    of row [r], column [c] sits at
    [(c*(cellSize+gapSize) + (cellSize-squareSize)/2,
      r*(cellSize+gapSize) + (cellSize-squareSize)/2)]
    and its [distanceFromCenter] is the Euclidean distance from that corner
    to [(width/2, height/2)], the width and height of the canvas as they
    read back after the constructor assigned
    [side = gridCells*(cellSize+gapSize) - gapSize] to them; both are
    [side] itself when [cellSize] and [gapSize] are integers and [side] lies
    between 0 and 2147483647.  For [gridCells = 2], [cellSize = 10],
    [gapSize = 0], [squareSize = 10]: the side, the width and the height
    are 20, the four squares sit at (0,0), (10,0), (0,10), (10,10), the
    maximal distance is [sqrt 200], and the square at (10,10) is at
    distance 0. *)
Theorem grid_geometry
  (canvas : Canvas) (o : CardEffectOptions) (rng : Rng) (s : CardEffect) :
  constructor canvas o rng = Ok s ->
  let side := INR (gridCells o) * (cellSize o + gapSize o) - gapSize o in
  map (fun sq =>
         (Square.x sq, Square.y sq, Square.distanceFromCenter sq))
      (_squares s)
  = flat_map
      (fun r =>
         map (fun c =>
                let px := INR c * (cellSize o + gapSize o)
                          + (cellSize o - squareSize o) / 2 in
                let py := INR r * (cellSize o + gapSize o)
                          + (cellSize o - squareSize o) / 2 in
                (px, py,
                 sqrt ((px - width (_canvas s) / 2) ^ 2
                       + (py - height (_canvas s) / 2) ^ 2)))
             (seq 0 (gridCells o)))
      (seq 0 (gridCells o)) /\
  (forall a b : Z,
     cellSize o = IZR a -> gapSize o = IZR b ->
     0 <= side <= 2147483647 ->
     width (_canvas s) = side /\ height (_canvas s) = side) /\
  (gridCells o = 2%nat -> cellSize o = 10 -> gapSize o = 0 ->
   squareSize o = 10 ->
   side = 20 /\
   width (_canvas s) = 20 /\
   height (_canvas s) = 20 /\
   map (fun sq => (Square.x sq, Square.y sq)) (_squares s)
   = [(0, 0); (10, 0); (0, 10); (10, 10)] /\
   _maxPointDistance s = sqrt 200 /\
   exists sq, nth_error (_squares s) 3 = Some sq /\
              Square.x sq = 10 /\ Square.y sq = 10 /\
              Square.distanceFromCenter sq = 0).
Proof.
  intros H side0. apply constructor_Ok in H.
  destruct H as (_ & _ & Hw & Hh & _ & _ & _ & Hmax & G & _).
  split; [|split].
  - rewrite Hw, Hh. exact G.
  - intros a b Ha Hb Hs.
    pose proof (integer_cells_integralSide o a b Ha Hb Hs) as Hint.
    destruct (integralSide_canvas o Hint) as (Hcw & Hch).
    rewrite Hw, Hh, Hcw, Hch. split; reflexivity.
  - intros Hn Hc Hg Hq.
    destruct (layout_2x2 o (_squares s) Hn Hc Hg Hq G)
      as (Hside & Hcw & Hch & Hrun & s0 & s1 & s2 & s3 & Hs
          & G0 & G1 & G2 & G3).
    split; [exact Hside|].
    split; [rewrite Hw; exact Hcw|]. split; [rewrite Hh; exact Hch|].
    rewrite Hmax, Hrun, Hs. unfold geometry in *.
    injection G0 as X0 Y0 D0. injection G1 as X1 Y1 D1.
    injection G2 as X2 Y2 D2. injection G3 as X3 Y3 D3.
    split; [|split].
    + simpl. rewrite X0, Y0, X1, Y1, X2, Y2, X3, Y3. reflexivity.
    + reflexivity.
    + exists s3. repeat split; assumption.
Qed.

(** ** Colors of the squares *)

Lemma floor_index (u : R) (n : nat) :
  0 <= u < 1 -> (0 < n)%nat ->
  (0 <= Math_floor (u * INR n) < Z.of_nat n)%Z.
Proof.
  intros [Hu0 Hu1] Hn. unfold Math_floor.
  assert (HnR : 0 < INR n) by (apply lt_0_INR; exact Hn).
  destruct (base_Int_part (u * INR n)) as [Hle Hgt].
  split.
  - assert (H : (-1 < Int_part (u * INR n))%Z).
    { apply lt_IZR. nra. }
    lia.
  - apply lt_IZR. rewrite <- INR_IZR_INZ. nra.
Qed.

Lemma arrayGet_defined {A : Type} (arr : list A) (i : Z) :
  (0 <= i < Z.of_nat (List.length arr))%Z -> arrayGet arr i <> None.
Proof.
  intros [H0 H1]. unfold arrayGet.
  destruct (Z.ltb_spec i 0); [lia|].
  apply nth_error_Some. lia.
Qed.

Lemma fresh_hasColor (o : CardEffectOptions) (draw : nat -> R)
  (sq : Square.t) :
  colors o <> [] -> (forall i, 0 <= draw i < 1) ->
  fresh o draw sq -> hasColor sq.
Proof.
  intros Hc Hd (_ & _ & i & j & _ & Hcol).
  unfold hasColor. rewrite Hcol. apply arrayGet_defined, floor_index.
  - apply Hd.
  - destruct (colors o); [congruence | simpl; lia].
Qed.

(** With a non-empty palette and draws in [0,1), every square gets a
    color. *)
Lemma constructor_hasColor (canvas : Canvas) (o : CardEffectOptions)
  (rng : Rng) (s : CardEffect) :
  constructor canvas o rng = Ok s ->
  colors o <> [] -> (forall i, 0 <= draws rng i < 1) ->
  Forall hasColor (_squares s).
Proof.
  intros H Hc Hd. apply constructor_Ok in H.
  destruct H as (_ & _ & _ & _ & _ & _ & _ & _ & _ & F).
  eapply Forall_impl; [|exact F].
  intros sq. apply fresh_hasColor; assumption.
Qed.

(** ** Sample inputs *)

Lemma halfRng_range : forall i, 0 <= draws halfRng i < 1.
Proof. intros i. simpl. lra. Qed.

Lemma DEFAULT_OPTIONS_valid : validOptions DEFAULT_OPTIONS.
Proof. unfold validOptions. simpl. lra. Qed.

Lemma scenarioOptions_valid : validOptions scenarioOptions.
Proof. unfold validOptions. simpl. lra. Qed.


(** The instance built for the 2 x 2 scenario. *)
Lemma scenario_instance :
  exists s s0 s1 s2 s3,
    constructor blankCanvas scenarioOptions halfRng = Ok s /\
    _options s = scenarioOptions /\
    _mouseInCard s = false /\
    _fadeSpeed s = 0 /\
    _opacityTouchFactor s = 0 /\
    _maxPointDistance s = sqrt 200 /\
    _squares s = [s0; s1; s2; s3] /\
    Forall hasColor (_squares s) /\
    Forall (fun sq => Square.opacity sq = 0 /\ Square.speed sq = 5.5)
           (_squares s) /\
    geometry s0 = (0, 0, sqrt 200) /\
    geometry s3 = (10, 10, 0).
Proof.
  destruct (constructor_total blankCanvas scenarioOptions halfRng
              scenarioOptions_valid) as [s Hs].
  pose proof (constructor_hasColor _ _ _ _ Hs) as Hcol.
  pose proof (constructor_Ok _ _ _ _ Hs)
    as (_ & Ho & _ & _ & Hm & Ht & Hf & Hmax & G & F).
  destruct (layout_2x2 scenarioOptions (_squares s)
              eq_refl eq_refl eq_refl eq_refl G)
    as (_ & _ & _ & Hrun & s0 & s1 & s2 & s3 & Hsq & G0 & _ & _ & G3).
  exists s, s0, s1, s2, s3.
  repeat (split; [assumption || congruence|]).
  split; [apply Hcol; [discriminate | exact halfRng_range]|].
  split; [|split; assumption].
  eapply Forall_impl; [|exact F].
  intros sq (Hop & _ & i & j & Hsp & _). split; [exact Hop|].
  rewrite Hsp. simpl. lra.
Qed.

Lemma grid_geometry_witness :
  exists s,
    constructor blankCanvas scenarioOptions halfRng = Ok s /\
    width (_canvas s) = 20 /\
    map (fun sq => (Square.x sq, Square.y sq)) (_squares s)
    = [(0, 0); (10, 0); (0, 10); (10, 10)] /\
    _maxPointDistance s = sqrt 200.
Proof.
  destruct (constructor_total blankCanvas scenarioOptions halfRng
              scenarioOptions_valid) as [s Hs].
  exists s. split; [exact Hs|].
  destruct (grid_geometry blankCanvas scenarioOptions halfRng s Hs)
    as (_ & _ & Hscenario).
  destruct (Hscenario eq_refl eq_refl eq_refl eq_refl)
    as (_ & Hw & _ & Hxy & Hmax & _).
  split; [exact Hw|]. split; assumption.
Defined.

Lemma reflectedSize_fractional (default : Z) :
  reflectedSize default 5.5 = 5.
Proof.
  unfold reflectedSize, toUint32, truncate.
  destruct (Rle_dec 0 5.5) as [|Hneg]; [|exfalso; lra].
  rewrite <- (Int_part_spec 5.5 5) by lra. reflexivity.
Qed.

Lemma fractionalOptions_valid : validOptions fractionalOptions.
Proof. unfold validOptions. simpl. lra. Qed.

Lemma grid_geometry_fractional_side :
  exists s sq,
    constructor blankCanvas fractionalOptions halfRng = Ok s /\
    _squares s = [sq] /\
    side fractionalOptions = 5.5 /\
    width (_canvas s) = 5 /\
    height (_canvas s) = 5 /\
    Square.x sq = 2.75 /\
    Square.y sq = 2.75 /\
    sqrt ((Square.x sq - 5.5 / 2) ^ 2 + (Square.y sq - 5.5 / 2) ^ 2) = 0 /\
    Square.distanceFromCenter sq = sqrt 0.125 /\
    Square.distanceFromCenter sq
    <> sqrt ((Square.x sq - 5.5 / 2) ^ 2 + (Square.y sq - 5.5 / 2) ^ 2).
Proof.
  destruct (constructor_total blankCanvas fractionalOptions halfRng
              fractionalOptions_valid) as [s Hs].
  pose proof (constructor_Ok _ _ _ _ Hs)
    as (_ & _ & Hw & Hh & _ & _ & _ & _ & G & _).
  assert (Hside : side fractionalOptions = 5.5).
  { unfold side. simpl. lra. }
  unfold canvasWidth, canvasHeight in *.
  rewrite Hside in Hw, Hh, G.
  rewrite (reflectedSize_fractional 300) in Hw, G.
  rewrite (reflectedSize_fractional 150) in Hh, G.
  unfold cellGeometry in G. simpl in G.
  destruct (_squares s) as [|sq [|sq' rest]] eqn:Esq; try discriminate G.
  unfold geometry in G. simpl in G. injection G as X Y D.
  assert (Ex : Square.x sq = 2.75) by (rewrite X; lra).
  assert (Ey : Square.y sq = 2.75) by (rewrite Y; lra).
  assert (Ed : Square.distanceFromCenter sq = sqrt 0.125).
  { rewrite D. f_equal. lra. }
  assert (Ez : sqrt ((Square.x sq - 5.5 / 2) ^ 2
                     + (Square.y sq - 5.5 / 2) ^ 2) = 0).
  { rewrite Ex, Ey. transitivity (sqrt 0); [f_equal; lra | apply sqrt_0]. }
  exists s, sq. repeat (split; [assumption|]).
  rewrite Ez, Ed. apply Rgt_not_eq. apply sqrt_lt_R0. lra.
Qed.

(** ** The update of one square *)

Lemma waveGate_speed (s : CardEffect) (sq : Square.t) :
  jsGt (normalizedDistance s sq) (_fadeSpeed s) = true ->
  (Square.speed sq > 0 ->
   Square.speed (waveGate s sq) = - Rabs (Square.speed sq)) /\
  Square.speed (waveGate s sq) <= 0.
Proof.
  intros Hgt. unfold waveGate. rewrite Hgt. simpl.
  destruct (Rgt_dec (Square.speed sq) 0) as [Hpos|Hneg]; simpl.
  - split; [reflexivity|]. pose proof (Rabs_pos (Square.speed sq)). lra.
  - split; [intros; contradiction | lra].
Qed.

Lemma waveGate_frame (s : CardEffect) (sq : Square.t) :
  Square.x (waveGate s sq) = Square.x sq /\
  Square.y (waveGate s sq) = Square.y sq /\
  Square.opacity (waveGate s sq) = Square.opacity sq /\
  Square.color (waveGate s sq) = Square.color sq /\
  Square.distanceFromCenter (waveGate s sq) = Square.distanceFromCenter sq /\
  Rabs (Square.speed (waveGate s sq)) = Rabs (Square.speed sq).
Proof.
  unfold waveGate. destruct (_ && _); simpl; repeat split.
  rewrite Rabs_Ropp. apply Rabs_pos_eq, Rabs_pos.
Qed.

Lemma bounce_range (sq : Square.t) : 0 <= Square.opacity (bounce sq) <= 1.
Proof. unfold bounce. decide_reals. Qed.

Lemma bounce_frame (sq : Square.t) :
  Square.x (bounce sq) = Square.x sq /\
  Square.y (bounce sq) = Square.y sq /\
  Square.color (bounce sq) = Square.color sq /\
  Square.distanceFromCenter (bounce sq) = Square.distanceFromCenter sq /\
  Rabs (Square.speed (bounce sq)) = Rabs (Square.speed sq).
Proof.
  unfold bounce. decide_reals; repeat split; apply Rabs_Ropp.
Qed.

Lemma updateSquare_range (s : CardEffect) (sq : Square.t) :
  0 <= Square.opacity (updateSquare s sq) <= 1.
Proof. unfold updateSquare. apply bounce_range. Qed.

Lemma updateSquare_frame (s : CardEffect) (sq : Square.t) :
  Square.x (updateSquare s sq) = Square.x sq /\
  Square.y (updateSquare s sq) = Square.y sq /\
  Square.color (updateSquare s sq) = Square.color sq /\
  Square.distanceFromCenter (updateSquare s sq)
  = Square.distanceFromCenter sq /\
  Rabs (Square.speed (updateSquare s sq)) = Rabs (Square.speed sq).
Proof.
  unfold updateSquare.
  destruct (bounce_frame (integrate s (waveGate s sq)))
    as (Bx & By & Bc & Bd & Bs).
  destruct (waveGate_frame s sq) as (Wx & Wy & _ & Wc & Wd & Ws).
  rewrite Bx, By, Bc, Bd, Bs. simpl. repeat split; assumption.
Qed.

(** A square the gate holds back does not brighten. *)
Lemma updateSquare_fades (s : CardEffect) (sq : Square.t) :
  pointFadeSpeedFactor (_options s) > 0 ->
  0 <= Square.opacity sq <= 1 ->
  jsGt (normalizedDistance s sq) (_fadeSpeed s) = true ->
  Square.opacity (updateSquare s sq) <= Square.opacity sq.
Proof.
  intros Hf Hop Hgt.
  destruct (waveGate_speed s sq Hgt) as (_ & Hsp).
  destruct (waveGate_frame s sq) as (_ & _ & Hop' & _).
  unfold updateSquare, bounce, integrate.
  set (w := waveGate s sq) in *. simpl.
  assert (Hstep : Square.speed w * pointFadeSpeedFactor (_options s) <= 0)
    by nra.
  decide_reals.
Qed.

(** ** Events *)

Lemma drawEach_Ok (sqs : list Square.t) :
  forall s s' : CardEffect,
    drawEach s sqs = Ok s' -> sameButCtx s s' /\ Forall hasColor sqs.
Proof.
  induction sqs as [|sq rest IH]; intros s s' H; simpl in H.
  - injection H as <-. split; [apply sameButCtx_refl | constructor].
  - destruct (_drawSquare s sq) as [s1|e] eqn:Hd; simpl in H; [|discriminate].
    destruct (IH _ _ H) as (H2 & Hc).
    split.
    + eapply sameButCtx_trans; [eapply drawSquare_sameButCtx, Hd | exact H2].
    + constructor; [|exact Hc].
      apply drawSquare_Ok in Hd. destruct Hd as (c & Hcol & _).
      unfold hasColor. congruence.
Qed.

Lemma drawEach_total (sqs : list Square.t) :
  forall s : CardEffect, Forall hasColor sqs -> exists s', drawEach s sqs = Ok s'.
Proof.
  induction sqs as [|sq rest IH]; intros s Hc; simpl.
  - eauto.
  - inversion Hc as [|? ? Hsq Hrest]; subst.
    destruct (drawSquare_total s sq Hsq) as [s1 ->]. simpl. apply IH, Hrest.
Qed.

Lemma drawGrid_Ok (s s' : CardEffect) :
  drawGrid s = Ok s' -> sameButCtx s s' /\ Forall hasColor (_squares s).
Proof.
  unfold drawGrid. intros H. apply drawEach_Ok in H. destruct H as (H & Hc).
  split; [|exact Hc].
  eapply sameButCtx_trans; [apply resetCanvas_sameButCtx | exact H].
Qed.

Lemma drawGrid_total (s : CardEffect) :
  Forall hasColor (_squares s) -> exists s', drawGrid s = Ok s'.
Proof. intros Hc. unfold drawGrid. apply drawEach_total, Hc. Qed.

Lemma Forall2_map_r {A B : Type} (P : A -> B -> Prop) (f : A -> B)
  (l : list A) :
  (forall a, P a (f a)) -> Forall2 P l (map f l).
Proof. intros H. induction l; simpl; constructor; auto. Qed.

Lemma sameShape_refl (s : CardEffect) : sameShape s s.
Proof.
  repeat split. induction (_squares s); constructor; [repeat split | assumption].
Qed.

Lemma sameShape_trans (s t u : CardEffect) :
  sameShape s t -> sameShape t u -> sameShape s u.
Proof.
  intros (Ho & Hm & Hs) (Ho' & Hm' & Hs').
  split; [congruence|]. split; [congruence|].
  revert Hs'. generalize (_squares u).
  induction Hs as [|a b l l' Hab Hl IH]; intros lu Hu; inversion Hu; subst.
  - constructor.
  - constructor; [|apply IH; assumption].
    intuition congruence.
Qed.

Lemma animate_sameShape (s s' : CardEffect) :
  animateCardEffect s = Ok s' -> sameShape s s'.
Proof.
  intros H. apply animate_Ok in H.
  destruct H as (Hsq & Ho & _ & Hm & _ & _ & _).
  split; [exact Ho|]. split; [exact Hm|].
  rewrite Hsq. apply Forall2_map_r. intros a. apply updateSquare_frame.
Qed.

Lemma handle_sameShape (ev : Event) (s s' : CardEffect) :
  handle ev s = Ok s' -> sameShape s s'.
Proof.
  destruct ev; simpl; intros H.
  - injection H as <-. exact (sameShape_refl s).
  - injection H as <-. exact (sameShape_refl s).
  - apply drawGrid_Ok in H. destruct H as ((Ho & Hs & _ & _ & Hm & _) & _).
    split; [congruence|]. split; [congruence|].
    rewrite <- Hs. apply (sameShape_refl s).
  - apply animate_sameShape, H.
Qed.

Lemma run_sameShape (evs : list Event) :
  forall s s', run evs s = Ok s' -> sameShape s s'.
Proof.
  induction evs as [|ev rest IH]; intros s s' H; simpl in H.
  - injection H as <-. apply sameShape_refl.
  - destruct (handle ev s) as [s1|e] eqn:Hh; simpl in H; [|discriminate].
    eapply sameShape_trans; [eapply handle_sameShape, Hh | apply IH, H].
Qed.

Lemma sameShape_hasColor (s s' : CardEffect) :
  sameShape s s' -> Forall hasColor (_squares s) ->
  Forall hasColor (_squares s').
Proof.
  intros (_ & _ & H) Hc.
  induction H as [|a b l l' Hab Hl IH]; [constructor|].
  inversion Hc; subst. constructor; [|apply IH; assumption].
  unfold hasColor in *. destruct Hab as (_ & _ & -> & _). assumption.
Qed.

Lemma handle_total (ev : Event) (s : CardEffect) :
  Forall hasColor (_squares s) -> exists s', handle ev s = Ok s'.
Proof.
  intros Hc. destruct ev; simpl; eauto using drawGrid_total, animate_total.
Qed.

(** No event throws on an instance whose squares all have a color. *)
Lemma run_total (evs : list Event) :
  forall s, Forall hasColor (_squares s) -> exists s', run evs s = Ok s'.
Proof.
  induction evs as [|ev rest IH]; intros s Hc; simpl.
  - eauto.
  - destruct (handle_total ev s Hc) as [s1 Hh]. rewrite Hh. simpl.
    apply IH. eapply sameShape_hasColor; [eapply handle_sameShape, Hh | exact Hc].
Qed.

Lemma easing_idle (s : CardEffect) :
  _mouseInCard s = false -> _fadeSpeed s = 0 -> _fadeSpeed (easing s) = 0.
Proof.
  destruct s as [cv o sqs m otf mpd fs]. simpl. intros -> ->.
  unfold easing. simpl. decide_reals.
Qed.

(** ** The wave gate *)



(** ** The opacity invariant *)

Lemma handle_opacityInRange (ev : Event) (s s' : CardEffect) :
  handle ev s = Ok s' ->
  Forall opacityInRange (_squares s) -> Forall opacityInRange (_squares s').
Proof.
  destruct ev; simpl; intros H Hr.
  - injection H as <-. exact Hr.
  - injection H as <-. exact Hr.
  - apply drawGrid_Ok in H. destruct H as ((_ & <- & _) & _). exact Hr.
  - apply animate_Ok in H. destruct H as (-> & _).
    apply Forall_forall. intros sq Hin. apply in_map_iff in Hin.
    destruct Hin as (a & <- & _). apply updateSquare_range.
Qed.

(** C2. If every square's opacity is within [0,1], it still is after any
    sequence of events (frames, pointer events, calls of [drawGrid]):
    integration followed by the clamp of the bounce step keeps
    [0 <= opacity <= 1], whatever the configuration and the speeds. *)
Theorem opacity_invariant (evs : list Event) (s s' : CardEffect) :
  run evs s = Ok s' ->
  Forall (fun sq => 0 <= Square.opacity sq <= 1) (_squares s) ->
  Forall (fun sq => 0 <= Square.opacity sq <= 1) (_squares s').
Proof.
  revert s. induction evs as [|ev rest IH]; intros s H Hr; simpl in H.
  - injection H as <-. exact Hr.
  - destruct (handle ev s) as [s1|e] eqn:Hh; simpl in H; [|discriminate].
    apply (IH s1 H). exact (handle_opacityInRange ev s s1 Hh Hr).
Qed.

Lemma opacity_invariant_witness :
  exists s s',
    constructor blankCanvas scenarioOptions halfRng = Ok s /\
    run [DrawGrid; MouseEnter; Frame; Frame; MouseLeave; Frame] s = Ok s' /\
    Forall (fun sq => 0 <= Square.opacity sq <= 1) (_squares s').
Proof.
  destruct scenario_instance
    as (s & s0 & s1 & s2 & s3 & Hs & _ & _ & _ & _ & _ & _ & Hc & Hfresh & _).
  destruct (run_total [DrawGrid; MouseEnter; Frame; Frame; MouseLeave; Frame]
              s Hc) as [s' Hrun].
  exists s, s'. split; [exact Hs|]. split; [exact Hrun|].
  apply (opacity_invariant _ s s' Hrun).
  eapply Forall_impl; [|exact Hfresh].
  intros sq (-> & _). lra.
Defined.

(** ** The frame condition *)

(** C9. A frame neither adds nor removes a square, and leaves every
    square's [x], [y], [color] and [distanceFromCenter], and the absolute
    value of its [speed], as they were. *)
Theorem frame_condition (s s' : CardEffect) :
  animateCardEffect s = Ok s' ->
  List.length (_squares s') = List.length (_squares s) /\
  Forall2 (fun sq sq' =>
             Square.x sq' = Square.x sq /\
             Square.y sq' = Square.y sq /\
             Square.color sq' = Square.color sq /\
             Square.distanceFromCenter sq' = Square.distanceFromCenter sq /\
             Rabs (Square.speed sq') = Rabs (Square.speed sq))
          (_squares s) (_squares s').
Proof.
  intros H. apply animate_sameShape in H. destruct H as (_ & _ & H).
  split; [|exact H]. symmetry. eapply Forall2_length, H.
Qed.

Lemma frame_condition_witness :
  exists s s',
    constructor blankCanvas scenarioOptions halfRng = Ok s /\
    animateCardEffect s = Ok s' /\
    List.length (_squares s') = 4%nat /\
    Forall (fun sq => Rabs (Square.speed sq) = 5.5) (_squares s').
Proof.
  destruct scenario_instance
    as (s & s0 & s1 & s2 & s3 & Hs & _ & _ & _ & _ & _ & Hsq & Hc & Hfresh & _).
  destruct (animate_total s Hc) as [s' Hs'].
  exists s, s'. split; [exact Hs|]. split; [exact Hs'|].
  destruct (frame_condition s s' Hs') as (Hlen & Hall).
  split; [rewrite Hlen, Hsq; reflexivity|].
  clear Hsq Hc Hlen. induction Hall as [|a b l l' Hab Hl IH]; [constructor|].
  inversion Hfresh as [|? ? (Hop & Hsp) Hrest]; subst.
  constructor; [|apply IH; exact Hrest].
  destruct Hab as (_ & _ & _ & _ & ->). rewrite Hsp.
  apply Rabs_pos_eq. lra.
Defined.

(** ** Outside the lit radius *)

(** C10. With [pointFadeSpeedFactor > 0] and [_maxPointDistance > 0], a
    square whose opacity is within [0,1] before a frame and whose
    [distanceFromCenter / _maxPointDistance] exceeds the [_fadeSpeed] in
    effect at the gate of that frame (the value after easing) has, after the
    frame, an opacity not above the one it had, whatever the sign of its
    speed was. *)
Theorem outside_never_brightens
  (s s' : CardEffect) (i : nat) (sq sq' : Square.t) :
  animateCardEffect s = Ok s' ->
  nth_error (_squares s) i = Some sq ->
  nth_error (_squares s') i = Some sq' ->
  pointFadeSpeedFactor (_options s) > 0 ->
  _maxPointDistance s > 0 ->
  0 <= Square.opacity sq <= 1 ->
  Square.distanceFromCenter sq / _maxPointDistance s > _fadeSpeed (easing s) ->
  Square.opacity sq' <= Square.opacity sq.
Proof.
  intros H Hsq Hsq' Hf Hm Hop Hgt. apply animate_Ok in H.
  destruct H as (Hmap & _).
  rewrite Hmap, nth_error_map, Hsq in Hsq'. simpl in Hsq'.
  injection Hsq' as <-.
  destruct (easing_frame s) as (Eo & _ & _ & Em & _).
  apply updateSquare_fades.
  - rewrite Eo. exact Hf.
  - exact Hop.
  - unfold normalizedDistance. rewrite Em, jsDiv_pos by lra.
    apply jsGt_Finite. exact Hgt.
Qed.

Lemma outside_never_brightens_witness :
  exists s s' sq sq',
    constructor blankCanvas scenarioOptions halfRng = Ok s /\
    animateCardEffect s = Ok s' /\
    nth_error (_squares s) 0 = Some sq /\
    nth_error (_squares s') 0 = Some sq' /\
    Square.speed sq = 5.5 /\
    Square.opacity sq' <= Square.opacity sq.
Proof.
  destruct scenario_instance
    as (s & s0 & s1 & s2 & s3 & Hs & Ho & Hm & Hf & _ & Hmax & Hsq & Hc
        & Hfresh & G0 & _).
  destruct (animate_total s Hc) as [s' Hs'].
  assert (Hlen : List.length (_squares s') = List.length (_squares s)).
  { apply animate_Ok in Hs'. destruct Hs' as (-> & _). apply length_map. }
  destruct (nth_error (_squares s') 0) as [sq'|] eqn:Hn.
  2:{ apply nth_error_None in Hn. rewrite Hlen, Hsq in Hn. simpl in Hn. lia. }
  exists s, s', s0, sq'.
  assert (Hn0 : nth_error (_squares s) 0 = Some s0) by (rewrite Hsq; reflexivity).
  assert (Hin : In s0 (_squares s)) by (rewrite Hsq; left; reflexivity).
  rewrite Forall_forall in Hfresh. destruct (Hfresh s0 Hin) as (Hop & Hsp).
  repeat (split; [assumption|]).
  pose proof sqrt_200_gt_10 as H10.
  apply (outside_never_brightens s s' 0 s0 sq' Hs' Hn0 Hn).
  - rewrite Ho. simpl. lra.
  - rewrite Hmax. lra.
  - rewrite Hop. lra.
  - rewrite (easing_idle s Hm Hf), Hmax. injection G0 as _ _ ->.
    unfold Rdiv. rewrite Rinv_r by lra. lra.
Defined.

(** ** Degenerate grids *)






(** ** drawGrid *)

Lemma drawEach_calls (sqs : list Square.t) :
  forall s s' : CardEffect,
    drawEach s sqs = Ok s' ->
    calls (_ctx s')
    = calls (_ctx s) ++ flat_map (fillCall (squareSize (_options s))) sqs.
Proof.
  induction sqs as [|sq rest IH]; intros s s' H; simpl in H.
  - injection H as <-. simpl. rewrite app_nil_r. reflexivity.
  - destruct (_drawSquare s sq) as [s1|e] eqn:Hd; simpl in H; [|discriminate].
    rewrite (IH _ _ H).
    apply drawSquare_Ok in Hd. destruct Hd as (c & Hcol & ->).
    simpl. unfold fillCall at 2. rewrite Hcol.
    rewrite <- app_assoc. reflexivity.
Qed.

Lemma drawGrid_calls (s s' : CardEffect) :
  drawGrid s = Ok s' -> calls (_ctx s') = calls (_ctx s) ++ gridCalls s.
Proof.
  unfold drawGrid. intros H. rewrite (drawEach_calls _ _ _ H).
  simpl. rewrite <- app_assoc. reflexivity.
Qed.

Lemma gridCalls_sameButCtx (s t : CardEffect) :
  sameButCtx s t -> gridCalls s = gridCalls t.
Proof.
  intros (Ho & Hs & _ & _ & _ & _ & Hw & Hh & _).
  unfold gridCalls. rewrite Ho, Hs, Hw, Hh. reflexivity.
Qed.

Lemma length_fillCalls (size : R) (sqs : list Square.t) :
  Forall hasColor sqs ->
  List.length (flat_map (fillCall size) sqs) = List.length sqs.
Proof.
  induction 1 as [|sq rest Hsq Hrest IH]; simpl; [reflexivity|].
  rewrite length_app, IH. unfold fillCall, hasColor in *.
  destruct (Square.color sq); [reflexivity | congruence].
Qed.

Lemma drawGrid_repeat (n : nat) :
  forall s : CardEffect,
    Forall hasColor (_squares s) ->
    exists sn,
      run (repeat DrawGrid n) s = Ok sn /\
      sameButCtx s sn /\
      calls (_ctx sn) = calls (_ctx s) ++ List.concat (repeat (gridCalls s) n).
Proof.
  induction n as [|n IH]; intros s Hc; simpl.
  - exists s. split; [reflexivity|]. split; [apply sameButCtx_refl|].
    rewrite app_nil_r. reflexivity.
  - destruct (drawGrid_total s Hc) as [s1 Hd]. rewrite Hd. simpl.
    pose proof (drawGrid_Ok _ _ Hd) as (Hsame & _).
    assert (Hc1 : Forall hasColor (_squares s1)).
    { destruct Hsame as (_ & <- & _). exact Hc. }
    destruct (IH s1 Hc1) as (sn & Hrun & Hsame' & Hcalls).
    exists sn. split; [exact Hrun|].
    split; [eapply sameButCtx_trans; eassumption|].
    rewrite Hcalls, (drawGrid_calls _ _ Hd), <- (gridCalls_sameButCtx _ _ Hsame).
    rewrite <- app_assoc. reflexivity.
Qed.

(** C8. A call of [drawGrid] changes nothing of the instance but the
    drawing context: the options, the squares, the hover flag, the two easing
    scalars, the maximal distance and the canvas' size and style opacity are
    as before.  It emits one [clearRect] and one [fillRect] per square, and
    however often it is called again with no frame in between, each call
    emits that same sequence of calls. *)
Theorem drawGrid_idempotent (s s1 : CardEffect) :
  drawGrid s = Ok s1 ->
  sameButCtx s s1 /\
  exists out : list DrawCall,
    calls (_ctx s1) = calls (_ctx s) ++ out /\
    List.length out = S (List.length (_squares s)) /\
    forall n : nat,
    exists sn,
      run (repeat DrawGrid n) s1 = Ok sn /\
      sameButCtx s sn /\
      calls (_ctx sn) = calls (_ctx s1) ++ List.concat (repeat out n).
Proof.
  intros H. pose proof (drawGrid_Ok _ _ H) as (Hsame & Hc).
  split; [exact Hsame|].
  exists (gridCalls s). split; [apply drawGrid_calls, H|]. split.
  - unfold gridCalls. simpl. f_equal. apply length_fillCalls, Hc.
  - intros n.
    assert (Hc1 : Forall hasColor (_squares s1)).
    { destruct Hsame as (_ & <- & _). exact Hc. }
    destruct (drawGrid_repeat n s1 Hc1) as (sn & Hrun & Hsame' & Hcalls).
    exists sn. split; [exact Hrun|].
    split; [eapply sameButCtx_trans; eassumption|].
    rewrite Hcalls, <- (gridCalls_sameButCtx _ _ Hsame). reflexivity.
Qed.

Lemma drawGrid_idempotent_witness :
  exists s s1 s3 out,
    constructor blankCanvas scenarioOptions halfRng = Ok s /\
    drawGrid s = Ok s1 /\
    run [DrawGrid; DrawGrid] s1 = Ok s3 /\
    _squares s3 = _squares s /\
    List.length out = 5%nat /\
    calls (_ctx s3) = calls (_ctx s) ++ out ++ out ++ out.
Proof.
  destruct scenario_instance
    as (s & s0' & s1' & s2' & s3' & Hs & _ & _ & _ & _ & _ & Hsq & Hc & _).
  destruct (drawGrid_total s Hc) as [s1 Hd].
  destruct (drawGrid_idempotent s s1 Hd) as (_ & out & Hout & Hlen & Hrep).
  destruct (Hrep 2%nat) as (s3 & Hrun & Hsame & Hcalls).
  exists s, s1, s3, out.
  split; [exact Hs|]. split; [exact Hd|]. split; [exact Hrun|].
  split; [symmetry; apply Hsame|].
  split; [rewrite Hlen, Hsq; reflexivity|].
  rewrite Hcalls, Hout. simpl. rewrite app_nil_r, <- app_assoc. reflexivity.
Defined.

(** ** Hover easing *)

Lemma easing_scalars (s : CardEffect) :
  _fadeSpeed (easing s)
  = (if _mouseInCard s then rampUp else rampDown)
      (fadeSpeedFactor (_options s)) (_fadeSpeed s) /\
  _opacityTouchFactor (easing s)
  = (if _mouseInCard s then rampUp else rampDown)
      (cardSpeedFactor (_options s)) (_opacityTouchFactor s).
Proof.
  destruct s as [cv o sqs m otf mpd fs].
  unfold easing, rampUp, rampDown. simpl.
  destruct m; simpl; decide_reals; split; reflexivity.
Qed.

(** From a value within [0,1] a ramp moves in its direction and leaves the
    interval by less than one step. *)
Lemma rampUp_bounds (f v : R) :
  0 < f -> 0 <= v <= 1 -> v <= rampUp f v < 1 + f.
Proof. intros Hf Hv. unfold rampUp. destruct (Rlt_dec v 1); lra. Qed.

Lemma rampDown_bounds (f v : R) :
  0 < f -> 0 <= v <= 1 -> - f < rampDown f v <= v.
Proof. intros Hf Hv. unfold rampDown. destruct (Rgt_dec v 0); lra. Qed.

(** [n] frames in a row while the pointer stays inside. *)
Lemma frames_hovering (n : nat) :
  forall s : CardEffect,
    _mouseInCard s = true ->
    Forall hasColor (_squares s) ->
    exists sn,
      run (repeat Frame n) s = Ok sn /\
      _mouseInCard sn = true /\
      _options sn = _options s /\
      Forall hasColor (_squares sn) /\
      _fadeSpeed sn
      = Nat.iter n (rampUp (fadeSpeedFactor (_options s))) (_fadeSpeed s) /\
      _opacityTouchFactor sn
      = Nat.iter n (rampUp (cardSpeedFactor (_options s)))
          (_opacityTouchFactor s).
Proof.
  induction n as [|n IH]; intros s Hm Hc.
  - exists s. simpl. repeat split; assumption.
  - destruct (animate_total s Hc) as [s1 H1].
    pose proof (animate_sameShape _ _ H1) as Hsh.
    pose proof (animate_Ok _ _ H1) as (_ & Ho & Hm1 & _ & Hf & Ht & _).
    destruct (easing_scalars s) as (Ef & Et). rewrite Hm in Ef, Et.
    destruct (IH s1) as (sn & Hrun & Hmn & Hon & Hcn & Hfn & Htn).
    { congruence. }
    { eapply sameShape_hasColor; eassumption. }
    exists sn. simpl. rewrite H1. simpl.
    split; [exact Hrun|]. split; [exact Hmn|]. split; [congruence|].
    split; [exact Hcn|].
    rewrite Hfn, Htn, Ho, Hf, Ht, Ef, Et.
    split; rewrite <- Nat.iter_succ_r; reflexivity.
Qed.

(** From zero, a ramp climbs by [f] a frame for as long as the value before
    the frame is below 1. *)
Lemma rampUp_linear (f : R) (k : nat) :
  0 < f -> INR k * f < 1 + f -> Nat.iter k (rampUp f) 0 = INR k * f.
Proof.
  intros Hf. induction k as [|k IH]; intros Hk.
  - simpl. lra.
  - rewrite S_INR in Hk. simpl Nat.iter. rewrite IH by lra.
    unfold rampUp. destruct (Rlt_dec (INR k * f) 1); [|lra].
    rewrite S_INR. lra.
Qed.

Lemma ceil_default_card : ceil (1 / cardSpeedFactor DEFAULT_OPTIONS) = 16%Z.
Proof.
  unfold ceil. simpl cardSpeedFactor.
  rewrite <- (Int_part_spec (- (1 / 0.065)) (-16)); [reflexivity|].
  lra.
Qed.

(** The instance the page builds first: default options. *)
Lemma default_instance :
  exists s,
    constructor blankCanvas DEFAULT_OPTIONS halfRng = Ok s /\
    _options s = DEFAULT_OPTIONS /\
    _fadeSpeed s = 0 /\
    _opacityTouchFactor s = 0 /\
    Forall hasColor (_squares s).
Proof.
  destruct (constructor_total blankCanvas DEFAULT_OPTIONS halfRng
              DEFAULT_OPTIONS_valid) as [s Hs].
  pose proof (constructor_hasColor _ _ _ _ Hs) as Hcol.
  pose proof (constructor_Ok _ _ _ _ Hs) as (_ & Ho & _ & _ & _ & Ht & Hf & _).
  exists s. repeat split; try assumption.
  apply Hcol; [discriminate | exact halfRng_range].
Qed.

(** The default instance after the pointer entered and [k] frames ran. *)
Lemma default_hover_frames (s0 : CardEffect) (k : nat) :
  _options s0 = DEFAULT_OPTIONS ->
  _opacityTouchFactor s0 = 0 ->
  Forall hasColor (_squares s0) ->
  exists sk,
    run (MouseEnter :: repeat Frame k) s0 = Ok sk /\
    _mouseInCard sk = true /\
    Forall hasColor (_squares sk) /\
    _opacityTouchFactor sk = Nat.iter k (rampUp 0.065) 0.
Proof.
  intros Ho Ht Hc.
  destruct (frames_hovering k (_onMouseEnter s0) eq_refl Hc)
    as (sk & Hrun & Hm & _ & Hck & _ & Htk).
  exists sk. simpl. split; [exact Hrun|]. split; [exact Hm|].
  split; [exact Hck|].
  rewrite Htk. simpl _options. rewrite Ho. simpl _opacityTouchFactor.
  rewrite Ht. reflexivity.
Qed.

(** C3 (the code departs from it). With the default options the intensity
    ramp leaves [0,1] and is not monotone while hovering: sixteen frames
    after the pointer entered, [_opacityTouchFactor] is 1.04, and the next
    frame, the pointer still inside, lowers it to 1. *)
Theorem intensity_overshoots :
  exists s0 s16 s17,
    constructor blankCanvas DEFAULT_OPTIONS halfRng = Ok s0 /\
    run (MouseEnter :: repeat Frame 16) s0 = Ok s16 /\
    _mouseInCard s16 = true /\
    _opacityTouchFactor s16 = 1.04 /\
    animateCardEffect s16 = Ok s17 /\
    _mouseInCard s17 = true /\
    _opacityTouchFactor s17 = 1.
Proof.
  destruct default_instance as (s0 & Hs0 & Ho & _ & Ht & Hc).
  destruct (default_hover_frames s0 16 Ho Ht Hc) as (s16 & Hrun & Hm & Hc16 & Hv).
  destruct (animate_total s16 Hc16) as [s17 H17].
  exists s0, s16, s17.
  assert (Hv16 : _opacityTouchFactor s16 = 1.04).
  { rewrite Hv, rampUp_linear by (simpl; lra). simpl. lra. }
  pose proof (animate_Ok _ _ H17) as (_ & Ho17 & Hm17 & _ & _ & Ht17 & _).
  destruct (easing_scalars s16) as (_ & Et). rewrite Hm, Hv16 in Et.
  repeat (split; [assumption || congruence|]).
  rewrite Ht17, Et. unfold rampUp. destruct (Rlt_dec 1.04 1); lra.
Qed.

(** C6 (the code departs from it). With the default options,
    [ceil(1 / cardSpeedFactor)] is 16, yet starting from 0 with the pointer
    inside, [_opacityTouchFactor] is [k * 0.065], hence not 1, after each of
    the first [k <= 16] frames; it is 1 only after the seventeenth. *)
Theorem intensity_misses_bound :
  exists s0,
    constructor blankCanvas DEFAULT_OPTIONS halfRng = Ok s0 /\
    _opacityTouchFactor s0 = 0 /\
    ceil (1 / cardSpeedFactor (_options s0)) = 16%Z /\
    Forall (fun k =>
              exists sk,
                run (MouseEnter :: repeat Frame k) s0 = Ok sk /\
                _opacityTouchFactor sk = INR k * 0.065 /\
                _opacityTouchFactor sk <> 1)
           (seq 0 17) /\
    exists s17,
      run (MouseEnter :: repeat Frame 17) s0 = Ok s17 /\
      _opacityTouchFactor s17 = 1.
Proof.
  destruct default_instance as (s0 & Hs0 & Ho & _ & Ht & Hc).
  exists s0. split; [exact Hs0|]. split; [exact Ht|].
  split; [rewrite Ho; exact ceil_default_card|]. split.
  - apply Forall_forall. intros k Hk. apply in_seq in Hk.
    destruct (default_hover_frames s0 k Ho Ht Hc) as (sk & Hrun & _ & _ & Hv).
    assert (Hk16 : INR k <= 16).
    { replace 16 with (INR 16) by (simpl; lra). apply le_INR. lia. }
    assert (Hlin : _opacityTouchFactor sk = INR k * 0.065).
    { rewrite Hv. apply rampUp_linear; lra. }
    exists sk. split; [exact Hrun|]. split; [exact Hlin|].
    rewrite Hlin. intros Heq.
    assert (Hz : (Z.of_nat k * 65 = 1000)%Z).
    { apply eq_IZR. rewrite mult_IZR, <- INR_IZR_INZ. lra. }
    lia.
  - destruct (default_hover_frames s0 17 Ho Ht Hc) as (s17 & Hrun & _ & _ & Hv).
    exists s17. split; [exact Hrun|].
    rewrite Hv.
    rewrite (Nat.iter_succ 16 R (rampUp 0.065) 0).
    rewrite rampUp_linear by (simpl; lra).
    clear Hv Hrun. unfold rampUp. simpl INR.
    destruct (Rlt_dec _ 1); lra.
Qed.

(** * Further properties of the class *)

(** ** What runs of events keep *)

Lemma sameShape_Forall (P Q : Square.t -> Prop) (s s' : CardEffect) :
  sameShape s s' ->
  (forall a b, sameSquareShape a b -> P a -> Q b) ->
  Forall P (_squares s) -> Forall Q (_squares s').
Proof.
  intros (_ & _ & H) Hstep HP.
  induction H as [|a b l l' Hab Hl IH]; [constructor|].
  inversion HP; subst. constructor; [|apply IH; assumption].
  apply (Hstep a b); [exact Hab | assumption].
Qed.

Lemma arrayGet_In {A : Type} (arr : list A) (i : Z) (a : A) :
  arrayGet arr i = Some a -> In a arr.
Proof.
  unfold arrayGet. destruct (i <? 0)%Z; [discriminate|]. apply nth_error_In.
Qed.

Lemma arrayGet_nil {A : Type} (i : Z) : arrayGet (@nil A) i = None.
Proof.
  unfold arrayGet. destruct (i <? 0)%Z; [reflexivity|].
  destruct (Z.to_nat i); reflexivity.
Qed.

(** ** Random speeds and colors *)

(** X1. With [Math.random] in [0,1), every square is created with a speed
    in [minPointFadeSpeed, maxPointFadeSpeed + 1): the upper end is one above
    the configured maximum.  When [minPointFadeSpeed] is not negative, the
    absolute value of every square's speed stays in that interval through
    any sequence of events. *)
Theorem speed_in_widened_range
  (canvas : Canvas) (o : CardEffectOptions) (rng : Rng) (s0 : CardEffect) :
  constructor canvas o rng = Ok s0 ->
  (forall i, 0 <= draws rng i < 1) ->
  Forall (fun sq =>
            minPointFadeSpeed o <= Square.speed sq < maxPointFadeSpeed o + 1)
         (_squares s0) /\
  (0 <= minPointFadeSpeed o ->
   forall (evs : list Event) (s : CardEffect),
     run evs s0 = Ok s ->
     Forall (fun sq =>
               minPointFadeSpeed o <= Rabs (Square.speed sq)
               < maxPointFadeSpeed o + 1)
            (_squares s)).
Proof.
  intros H Hrng.
  pose proof (constructor_Ok _ _ _ _ H)
    as ((Hval & _) & _ & _ & _ & _ & _ & _ & _ & _ & F).
  assert (H0 : Forall (fun sq =>
                         minPointFadeSpeed o <= Square.speed sq
                         < maxPointFadeSpeed o + 1) (_squares s0)).
  { eapply Forall_impl; [|exact F].
    intros sq (_ & _ & i & j & -> & _).
    pose proof (Hrng i) as [Hi0 Hi1]. split; nra. }
  split; [exact H0|].
  intros Hmin evs s Hrun.
  apply (sameShape_Forall
           (fun sq => minPointFadeSpeed o <= Square.speed sq
                      < maxPointFadeSpeed o + 1)
           _ s0 s (run_sameShape _ _ _ Hrun)); [|exact H0].
  intros a b (_ & _ & _ & _ & Habs) Ha. rewrite Habs.
  rewrite Rabs_pos_eq by lra. exact Ha.
Qed.

Lemma speed_in_widened_range_witness :
  exists s0 s,
    constructor blankCanvas scenarioOptions halfRng = Ok s0 /\
    run [MouseEnter; Frame; Frame; Frame] s0 = Ok s /\
    Forall (fun sq => 4 <= Square.speed sq < 7) (_squares s0) /\
    Forall (fun sq => 4 <= Rabs (Square.speed sq) < 7) (_squares s).
Proof.
  destruct scenario_instance
    as (s0 & q0 & q1 & q2 & q3 & Hs0 & _ & _ & _ & _ & _ & _ & Hc & _).
  destruct (run_total [MouseEnter; Frame; Frame; Frame] s0 Hc) as [s Hrun].
  destruct (speed_in_widened_range blankCanvas scenarioOptions halfRng s0
              Hs0 halfRng_range) as (Hnew & Hlater).
  assert (Hmin : 0 <= minPointFadeSpeed scenarioOptions) by (simpl; lra).
  pose proof (Hlater Hmin _ s Hrun) as Hs.
  exists s0, s. split; [exact Hs0|]. split; [exact Hrun|]. split.
  - eapply Forall_impl; [|exact Hnew]. simpl. intros sq Hsq. lra.
  - eapply Forall_impl; [|exact Hs]. simpl. intros sq Hsq. lra.
Defined.

(** X2. With a non-empty palette and [Math.random] in [0,1), every square
    has a color and that color is an entry of [colors], at construction and
    after any sequence of events. *)
Theorem colors_from_palette
  (canvas : Canvas) (o : CardEffectOptions) (rng : Rng) (s0 : CardEffect) :
  constructor canvas o rng = Ok s0 ->
  colors o <> [] ->
  (forall i, 0 <= draws rng i < 1) ->
  forall (evs : list Event) (s : CardEffect),
    run evs s0 = Ok s ->
    Forall (fun sq => exists c, Square.color sq = Some c /\ In c (colors o))
           (_squares s).
Proof.
  intros H Hpal Hrng evs s Hrun.
  pose proof (constructor_Ok _ _ _ _ H)
    as (_ & _ & _ & _ & _ & _ & _ & _ & _ & F).
  apply (sameShape_Forall
           (fun sq => exists c, Square.color sq = Some c /\ In c (colors o))
           _ s0 s (run_sameShape _ _ _ Hrun)).
  - intros a b (_ & _ & Hcol & _) Ha. rewrite Hcol. exact Ha.
  - rewrite Forall_forall in *. intros sq Hin.
    pose proof (fresh_hasColor o (draws rng) sq Hpal Hrng (F sq Hin)) as Hhas.
    destruct (F sq Hin) as (_ & _ & i & j & _ & Hcol).
    unfold hasColor in Hhas.
    destruct (Square.color sq) as [c|] eqn:E; [|congruence].
    exists c. split; [reflexivity|]. eapply arrayGet_In. symmetry. exact Hcol.
Qed.

Lemma colors_from_palette_witness :
  exists s0 s,
    constructor blankCanvas scenarioOptions halfRng = Ok s0 /\
    run [DrawGrid; MouseEnter; Frame; MouseLeave; Frame] s0 = Ok s /\
    Forall (fun sq =>
              exists c, Square.color sq = Some c
                        /\ In c (colors scenarioOptions))
           (_squares s).
Proof.
  destruct scenario_instance
    as (s0 & q0 & q1 & q2 & q3 & Hs0 & _ & _ & _ & _ & _ & _ & Hc & _).
  destruct (run_total [DrawGrid; MouseEnter; Frame; MouseLeave; Frame] s0 Hc)
    as [s Hrun].
  assert (Hpal : colors scenarioOptions <> []) by discriminate.
  exists s0, s. split; [exact Hs0|]. split; [exact Hrun|].
  exact (colors_from_palette blankCanvas scenarioOptions halfRng s0
           Hs0 Hpal halfRng_range _ s Hrun).
Defined.

(** ** Squares without a color *)

Lemma hasColor_or_noColor (l : list Square.t) :
  Forall hasColor l \/ Exists noColor l.
Proof.
  induction l as [|sq l [IH|IH]].
  - left. constructor.
  - destruct (Square.color sq) as [c|] eqn:E.
    + left. constructor; [unfold hasColor; congruence | exact IH].
    + right. apply Exists_cons_hd. exact E.
  - right. apply Exists_cons_tl. exact IH.
Qed.

Lemma hasColor_not_noColor (l : list Square.t) :
  Forall hasColor l -> Exists noColor l -> False.
Proof.
  intros HF HE. apply Exists_exists in HE. destruct HE as (sq & Hin & Hno).
  rewrite Forall_forall in HF. exact (HF sq Hin Hno).
Qed.

Lemma drawSquare_Throw (s : CardEffect) (sq : Square.t) (e : JsError) :
  _drawSquare s sq = Throw e -> e = TypeError.
Proof.
  unfold _drawSquare. destruct (Square.color sq); [discriminate|].
  intros H. injection H as <-. reflexivity.
Qed.

Lemma drawEach_Throw (sqs : list Square.t) :
  forall (s : CardEffect) (e : JsError),
    drawEach s sqs = Throw e -> e = TypeError.
Proof.
  induction sqs as [|sq rest IH]; intros s e H; simpl in H; [discriminate|].
  destruct (_drawSquare s sq) as [s1|e1] eqn:Hd; simpl in H.
  - exact (IH _ _ H).
  - injection H as <-. exact (drawSquare_Throw _ _ _ Hd).
Qed.

Lemma forEachSquare_Throw (sqs : list Square.t) :
  forall (s : CardEffect) (e : JsError),
    forEachSquare s sqs = Throw e -> e = TypeError.
Proof.
  induction sqs as [|sq rest IH]; intros s e H; simpl in H; [discriminate|].
  destruct (_drawSquare s (updateSquare s sq)) as [s1|e1] eqn:Hd; simpl in H.
  - destruct (forEachSquare s1 rest) as [[s2 out]|e2] eqn:Hr; simpl in H;
      [discriminate|].
    injection H as <-. exact (IH _ _ Hr).
  - injection H as <-. exact (drawSquare_Throw _ _ _ Hd).
Qed.

Lemma animate_Throw (s : CardEffect) (e : JsError) :
  animateCardEffect s = Throw e -> e = TypeError.
Proof.
  unfold animateCardEffect.
  set (g := setStyleOpacity _ _).
  destruct (forEachSquare g (_squares g)) as [[s2 out]|e2] eqn:Hf; simpl;
    [discriminate|].
  intros H. injection H as <-. exact (forEachSquare_Throw _ _ _ Hf).
Qed.

(** X3. The only exception [drawGrid] and [animateCardEffect] raise is the
    [TypeError] of reading a component of an undefined color, and each of
    them raises it exactly when some square of the instance has no color. *)
Theorem draws_throw_on_missing_color (s : CardEffect) :
  ((exists e, drawGrid s = Throw e) <-> Exists noColor (_squares s)) /\
  ((exists e, animateCardEffect s = Throw e)
   <-> Exists noColor (_squares s)) /\
  (forall e,
     drawGrid s = Throw e \/ animateCardEffect s = Throw e -> e = TypeError).
Proof.
  split; [|split].
  - split.
    + intros [e He].
      destruct (hasColor_or_noColor (_squares s)) as [Hc|Hn]; [|exact Hn].
      destruct (drawGrid_total s Hc) as [s' Hs']. congruence.
    + intros Hn. destruct (drawGrid s) as [s'|e] eqn:Hd; [|eauto].
      apply drawGrid_Ok in Hd. destruct Hd as (_ & Hc).
      destruct (hasColor_not_noColor _ Hc Hn).
  - split.
    + intros [e He].
      destruct (hasColor_or_noColor (_squares s)) as [Hc|Hn]; [|exact Hn].
      destruct (animate_total s Hc) as [s' Hs']. congruence.
    + intros Hn. destruct (animateCardEffect s) as [s'|e] eqn:Hd; [|eauto].
      apply animate_Ok in Hd.
      destruct Hd as (_ & _ & _ & _ & _ & _ & Hc).
      destruct (hasColor_not_noColor _ Hc Hn).
  - intros e [H|H].
    + unfold drawGrid in H. exact (drawEach_Throw _ _ _ H).
    + exact (animate_Throw _ _ H).
Qed.

Lemma constructor_canvas (canvas : Canvas) (o : CardEffectOptions) (rng : Rng)
  (s : CardEffect) :
  constructor canvas o rng = Ok s ->
  _canvas s = {| width := canvasWidth o; height := canvasHeight o;
                 styleOpacity := styleOpacity canvas;
                 context2d := context2d canvas |}.
Proof.
  unfold constructor.
  destruct (Rlt_dec _ _); [discriminate|].
  destruct (Rle_dec _ _); [discriminate|].
  intros H. injection H as <-.
  unfold _resetSquaresPoints.
  match goal with
  | |- context [layoutRows ?rows ?cols ?st] =>
      destruct (layoutRows_appended cols rows st)
        as (news & (_ & _ & A3 & _) & _)
  end.
  rewrite A3. reflexivity.
Qed.

(** X4. The constructor accepts an empty palette; when the grid has at
    least one cell, no square of the instance has a color, and the first
    [drawGrid], like the first frame, throws a [TypeError]. *)
Theorem empty_palette_throws_on_first_draw
  (canvas : Canvas) (o : CardEffectOptions) (rng : Rng) (s : CardEffect) :
  constructor canvas o rng = Ok s ->
  colors o = [] ->
  (0 < gridCells o)%nat ->
  Forall noColor (_squares s) /\
  drawGrid s = Throw TypeError /\
  animateCardEffect s = Throw TypeError.
Proof.
  intros H Hpal Hn.
  pose proof (constructor_length _ _ _ _ H) as Hlen.
  pose proof (constructor_Ok _ _ _ _ H)
    as (_ & _ & _ & _ & _ & _ & _ & _ & _ & F).
  assert (Hno : Forall noColor (_squares s)).
  { eapply Forall_impl; [|exact F].
    intros sq (_ & _ & i & j & _ & Hcol).
    unfold noColor. rewrite Hcol, Hpal. apply arrayGet_nil. }
  split; [exact Hno|].
  assert (Hex : Exists noColor (_squares s)).
  { destruct (_squares s) as [|sq rest].
    - simpl in Hlen. nia.
    - inversion Hno; subst. apply Exists_cons_hd. assumption. }
  split.
  - destruct (drawGrid s) as [s'|e] eqn:Hd.
    + apply drawGrid_Ok in Hd. destruct Hd as (_ & Hc).
      destruct (hasColor_not_noColor _ Hc Hex).
    + unfold drawGrid in Hd. rewrite (drawEach_Throw _ _ _ Hd). reflexivity.
  - destruct (animateCardEffect s) as [s'|e] eqn:Hd.
    + apply animate_Ok in Hd.
      destruct Hd as (_ & _ & _ & _ & _ & _ & Hc).
      destruct (hasColor_not_noColor _ Hc Hex).
    + rewrite (animate_Throw _ _ Hd). reflexivity.
Qed.

Lemma emptyPaletteOptions_valid : validOptions emptyPaletteOptions.
Proof. unfold validOptions. simpl. lra. Qed.

Lemma empty_palette_throws_on_first_draw_witness :
  exists s,
    constructor blankCanvas emptyPaletteOptions halfRng = Ok s /\
    List.length (_squares s) = 2500%nat /\
    drawGrid s = Throw TypeError /\
    animateCardEffect s = Throw TypeError.
Proof.
  destruct (constructor_total blankCanvas emptyPaletteOptions halfRng
              emptyPaletteOptions_valid) as [s Hs].
  assert (Hn : (0 < gridCells emptyPaletteOptions)%nat) by (simpl; lia).
  destruct (empty_palette_throws_on_first_draw blankCanvas
              emptyPaletteOptions halfRng s Hs eq_refl Hn)
    as (_ & Hd & Ha).
  exists s. split; [exact Hs|].
  split; [exact (constructor_length _ _ _ _ Hs)|]. split; assumption.
Defined.

(** ** An empty grid *)

(** X5. With [gridCells = 0] the instance has no square and a maximal
    distance of 0; whatever the palette, no sequence of events throws on it,
    no event creates a square, and each [drawGrid] emits a single
    [clearRect]. *)
Theorem empty_grid_is_inert
  (canvas : Canvas) (o : CardEffectOptions) (rng : Rng) (s0 : CardEffect) :
  constructor canvas o rng = Ok s0 ->
  gridCells o = 0%nat ->
  _squares s0 = [] /\
  _maxPointDistance s0 = 0 /\
  forall evs : list Event,
  exists s s',
    run evs s0 = Ok s /\
    _squares s = [] /\
    drawGrid s = Ok s' /\
    calls (_ctx s')
    = calls (_ctx s)
      ++ [ClearRect 0 0 (width (_canvas s)) (height (_canvas s))].
Proof.
  intros H Hn.
  pose proof (constructor_length _ _ _ _ H) as Hlen. rewrite Hn in Hlen.
  assert (Hnil : _squares s0 = []).
  { destruct (_squares s0); [reflexivity | discriminate Hlen]. }
  pose proof (constructor_Ok _ _ _ _ H)
    as (_ & _ & _ & _ & _ & _ & _ & Hmax & _).
  split; [exact Hnil|]. split; [rewrite Hmax, Hnil; reflexivity|].
  intros evs.
  assert (Hc : Forall hasColor (_squares s0)) by (rewrite Hnil; constructor).
  destruct (run_total evs s0 Hc) as [s Hrun].
  pose proof (run_sameShape _ _ _ Hrun) as (_ & _ & Hsq).
  rewrite Hnil in Hsq.
  assert (Hs : _squares s = []).
  { destruct (_squares s); [reflexivity | inversion Hsq]. }
  assert (Hc' : Forall hasColor (_squares s)) by (rewrite Hs; constructor).
  destruct (drawGrid_total s Hc') as [s' Hd].
  exists s, s'. split; [exact Hrun|]. split; [exact Hs|].
  split; [exact Hd|].
  rewrite (drawGrid_calls _ _ Hd). unfold gridCalls. rewrite Hs.
  reflexivity.
Qed.

Lemma emptyGridOptions_valid : validOptions emptyGridOptions.
Proof. unfold validOptions. simpl. lra. Qed.

Lemma empty_grid_is_inert_witness :
  exists s0 s,
    constructor blankCanvas emptyGridOptions halfRng = Ok s0 /\
    run [DrawGrid; MouseEnter; Frame; Frame] s0 = Ok s /\
    _squares s = [].
Proof.
  destruct (constructor_total blankCanvas emptyGridOptions halfRng
              emptyGridOptions_valid) as [s0 Hs0].
  destruct (empty_grid_is_inert blankCanvas emptyGridOptions halfRng s0
              Hs0 eq_refl) as (_ & _ & Hrun).
  destruct (Hrun [DrawGrid; MouseEnter; Frame; Frame])
    as (s & s' & Hr & Hnil & _).
  exists s0, s. repeat split; assumption.
Defined.

(** ** The first picture *)

(** X6. The constructor draws nothing and creates every square with
    opacity 0, so the picture a [drawGrid] right after construction adds to
    the context is one [clearRect] of the canvas, at the width and height
    that read back after the constructor assigned the side to them,
    followed by [gridCells * gridCells] fills of size [squareSize] that are
    all fully transparent. *)
Theorem first_drawGrid_is_transparent
  (canvas : Canvas) (o : CardEffectOptions) (rng : Rng)
  (s0 s1 : CardEffect) :
  constructor canvas o rng = Ok s0 ->
  drawGrid s0 = Ok s1 ->
  exists fills : list DrawCall,
    calls (_ctx s1)
    = calls (context2d canvas)
      ++ ClearRect 0 0 (width (_canvas s0)) (height (_canvas s0))
         :: fills /\
    List.length fills = (gridCells o * gridCells o)%nat /\
    Forall (fun call =>
              exists r g b x y,
                call = FillRect (Rgba r g b 0) x y
                         (squareSize o) (squareSize o))
           fills.
Proof.
  intros H Hd.
  pose proof (constructor_canvas _ _ _ _ H) as Hcv.
  pose proof (constructor_length _ _ _ _ H) as Hlen.
  pose proof (constructor_Ok _ _ _ _ H)
    as (_ & Ho & _ & _ & _ & _ & _ & _ & _ & F).
  pose proof (drawGrid_Ok _ _ Hd) as (_ & Hc).
  exists (flat_map (fillCall (squareSize o)) (_squares s0)).
  split; [|split].
  - rewrite (drawGrid_calls _ _ Hd). unfold gridCalls, _ctx.
    rewrite Ho, Hcv. reflexivity.
  - rewrite length_fillCalls by exact Hc. exact Hlen.
  - apply Forall_forall. intros call Hin. apply in_flat_map in Hin.
    destruct Hin as (sq & Hsq & Hcall).
    rewrite Forall_forall in F. destruct (F sq Hsq) as (Hop & _).
    unfold fillCall in Hcall. destruct (Square.color sq) as [c|]; [|contradiction].
    destruct Hcall as [<-|[]]. rewrite Hop.
    exists (Color.r c), (Color.g c), (Color.b c), (Square.x sq), (Square.y sq).
    reflexivity.
Qed.

Lemma first_drawGrid_is_transparent_witness :
  exists s0 s1 fills,
    constructor blankCanvas scenarioOptions halfRng = Ok s0 /\
    drawGrid s0 = Ok s1 /\
    calls (_ctx s1) = ClearRect 0 0 20 20 :: fills /\
    List.length fills = 4%nat.
Proof.
  destruct scenario_instance
    as (s0 & q0 & q1 & q2 & q3 & Hs0 & _ & _ & _ & _ & _ & _ & Hc & _).
  destruct (drawGrid_total s0 Hc) as [s1 Hd].
  destruct (first_drawGrid_is_transparent blankCanvas scenarioOptions halfRng
              s0 s1 Hs0 Hd) as (fills & Hcalls & Hlen & _).
  exists s0, s1, fills. split; [exact Hs0|]. split; [exact Hd|].
  split; [|exact Hlen].
  assert (Hint : integralSide scenarioOptions).
  { exists 20%Z. split; [lia|]. unfold side. simpl. lra. }
  destruct (integralSide_canvas _ Hint) as (Hcw & Hch).
  pose proof (constructor_Ok _ _ _ _ Hs0) as (_ & _ & Hw & Hh & _).
  rewrite Hcalls, Hw, Hh, Hcw, Hch. simpl. f_equal. unfold side. simpl.
  f_equal; lra.
Defined.

(** ** The maximal distance *)

Lemma runMax_attained (ds : list R) :
  forall m, runMax m ds = m \/ In (runMax m ds) ds.
Proof.
  induction ds as [|d ds IH]; intros m.
  - left. reflexivity.
  - change (runMax m (d :: ds))
      with (runMax (if Rlt_dec m d then d else m) ds).
    destruct (IH (if Rlt_dec m d then d else m)) as [E|Hin].
    + rewrite E. destruct (Rlt_dec m d); [right; left; reflexivity | left; reflexivity].
    + right. right. exact Hin.
Qed.

Lemma sameShape_distances (s s' : CardEffect) :
  sameShape s s' ->
  map Square.distanceFromCenter (_squares s')
  = map Square.distanceFromCenter (_squares s).
Proof.
  intros (_ & _ & H).
  induction H as [|a b l l' Hab Hl IH]; [reflexivity|].
  simpl. destruct Hab as (_ & _ & _ & -> & _). rewrite IH. reflexivity.
Qed.

(** The distances of an instance built by the constructor, in any state it
    reaches. *)
Lemma reached_distances (canvas : Canvas) (o : CardEffectOptions) (rng : Rng)
  (s0 s : CardEffect) (evs : list Event) :
  constructor canvas o rng = Ok s0 ->
  run evs s0 = Ok s ->
  _maxPointDistance s
  = runMax 0 (map Square.distanceFromCenter (_squares s)) /\
  Forall (fun d => 0 <= d <= _maxPointDistance s)
         (map Square.distanceFromCenter (_squares s)).
Proof.
  intros H Hrun.
  pose proof (constructor_Ok _ _ _ _ H)
    as (_ & _ & _ & _ & _ & _ & _ & Hmax & _ & F).
  pose proof (run_sameShape _ _ _ Hrun) as Hsh.
  pose proof Hsh as (_ & Hm & _).
  rewrite (sameShape_distances _ _ Hsh), Hm.
  split; [exact Hmax|].
  pose proof (runMax_bounds (map Square.distanceFromCenter (_squares s0)) 0)
    as Hb.
  rewrite <- Hmax in Hb.
  rewrite Forall_map in *. rewrite Forall_forall in *.
  intros sq Hin. destruct (F sq Hin) as (_ & Hpos & _).
  specialize (Hb sq Hin). simpl in Hb. lra.
Qed.

(** X7. In every state an instance reaches, each square's
    [distanceFromCenter] lies between 0 and [_maxPointDistance], and when the
    instance has a square, [_maxPointDistance] is the distance of one of
    them. *)
Theorem max_distance_is_attained
  (canvas : Canvas) (o : CardEffectOptions) (rng : Rng)
  (s0 s : CardEffect) (evs : list Event) :
  constructor canvas o rng = Ok s0 ->
  run evs s0 = Ok s ->
  Forall (fun sq =>
            0 <= Square.distanceFromCenter sq <= _maxPointDistance s)
         (_squares s) /\
  (_squares s <> [] ->
   exists sq, In sq (_squares s)
              /\ Square.distanceFromCenter sq = _maxPointDistance s).
Proof.
  intros H Hrun.
  destruct (reached_distances _ _ _ _ _ _ H Hrun) as (Hmax & Hb).
  split; [rewrite Forall_map in Hb; exact Hb|].
  intros Hne.
  destruct (runMax_attained (map Square.distanceFromCenter (_squares s)) 0)
    as [E|Hin].
  - destruct (_squares s) as [|sq rest]; [congruence|].
    exists sq. split; [left; reflexivity|].
    inversion Hb as [|? ? Hsq _]; subst. rewrite Hmax, E in *. lra.
  - rewrite <- Hmax in Hin. apply in_map_iff in Hin.
    destruct Hin as (sq & Hd & Hsq). exists sq. split; assumption.
Qed.

Lemma max_distance_is_attained_witness :
  exists s0 s sq,
    constructor blankCanvas scenarioOptions halfRng = Ok s0 /\
    run [MouseEnter; Frame; Frame] s0 = Ok s /\
    In sq (_squares s) /\
    Square.distanceFromCenter sq = _maxPointDistance s.
Proof.
  destruct scenario_instance
    as (s0 & q0 & q1 & q2 & q3 & Hs0 & _ & _ & _ & _ & _ & Hsq & Hc & _).
  destruct (run_total [MouseEnter; Frame; Frame] s0 Hc) as [s Hrun].
  destruct (max_distance_is_attained blankCanvas scenarioOptions halfRng
              s0 s _ Hs0 Hrun) as (_ & Hatt).
  assert (Hne : _squares s <> []).
  { pose proof (run_sameShape _ _ _ Hrun) as (_ & _ & H2).
    rewrite Hsq in H2. inversion H2; subst. discriminate. }
  destruct (Hatt Hne) as (sq & Hin & Hd).
  exists s0, s, sq. repeat split; assumption.
Defined.

(** X8. Once the wave front read by the gate is at least 1, the gate
    changes no square: no square is farther than [_maxPointDistance], so no
    ratio exceeds 1. *)
Theorem gate_is_open_when_fully_lit
  (canvas : Canvas) (o : CardEffectOptions) (rng : Rng)
  (s0 s : CardEffect) (evs : list Event) :
  constructor canvas o rng = Ok s0 ->
  run evs s0 = Ok s ->
  1 <= _fadeSpeed (easing s) ->
  forall sq, In sq (_squares s) -> waveGate (easing s) sq = sq.
Proof.
  intros H Hrun Hlit sq Hin.
  destruct (reached_distances _ _ _ _ _ _ H Hrun) as (_ & Hb).
  rewrite Forall_map, Forall_forall in Hb. specialize (Hb sq Hin).
  unfold waveGate, normalizedDistance.
  destruct (easing_frame s) as (_ & _ & _ & -> & _).
  assert (Hno : jsGt (jsDiv (Square.distanceFromCenter sq)
                            (_maxPointDistance s))
                     (_fadeSpeed (easing s)) = false).
  { unfold jsDiv. destruct (Req_dec_T (_maxPointDistance s) 0) as [Hz|Hnz].
    - rewrite Hz in Hb.
      destruct (Rlt_dec 0 (Square.distanceFromCenter sq)); [lra|].
      destruct (Rlt_dec (Square.distanceFromCenter sq) 0); reflexivity.
    - simpl. destruct (Rgt_dec _ _) as [Hgt|]; [|reflexivity].
      assert (Hpos : 0 < _maxPointDistance s) by lra.
      assert (Hle : Square.distanceFromCenter sq / _maxPointDistance s <= 1).
      { apply Rmult_le_reg_r with (_maxPointDistance s); [exact Hpos|].
        unfold Rdiv. rewrite Rmult_assoc, Rinv_l by lra. lra. }
      lra. }
  rewrite Hno. reflexivity.
Qed.

Lemma gate_is_open_when_fully_lit_witness :
  exists s0 s sq,
    constructor blankCanvas scenarioOptions halfRng = Ok s0 /\
    run (MouseEnter :: repeat Frame 25) s0 = Ok s /\
    _fadeSpeed s = 1 /\
    In sq (_squares s) /\
    waveGate (easing s) sq = sq.
Proof.
  destruct scenario_instance
    as (s0 & q0 & q1 & q2 & q3 & Hs0 & Ho & _ & Hf & _ & _ & Hsq & Hc & _).
  destruct (frames_hovering 25 (_onMouseEnter s0) eq_refl Hc)
    as (s & Hrun & Hm & Hos & _ & Hfs & _).
  assert (Hrun' : run (MouseEnter :: repeat Frame 25) s0 = Ok s) by exact Hrun.
  assert (Hone : _fadeSpeed s = 1).
  { rewrite Hfs. simpl _options. simpl _fadeSpeed. rewrite Ho, Hf.
    simpl fadeSpeedFactor. rewrite rampUp_linear by (simpl; lra).
    simpl. lra. }
  assert (Hlit : 1 <= _fadeSpeed (easing s)).
  { destruct (easing_scalars s) as (-> & _). rewrite Hm, Hone.
    unfold rampUp. destruct (Rlt_dec 1 1); lra. }
  assert (Hne : exists sq, In sq (_squares s)).
  { pose proof (run_sameShape _ _ _ Hrun') as (_ & _ & H2).
    rewrite Hsq in H2. inversion H2; subst. eexists. left. reflexivity. }
  destruct Hne as (sq & Hin).
  exists s0, s, sq. split; [exact Hs0|]. split; [exact Hrun'|].
  split; [exact Hone|]. split; [exact Hin|].
  exact (gate_is_open_when_fully_lit blankCanvas scenarioOptions halfRng
           s0 s _ Hs0 Hrun' Hlit sq Hin).
Defined.

(** ** An instance at rest *)

Lemma updateSquare_at_rest (g : CardEffect) (sq : Square.t) :
  _fadeSpeed g = 0 ->
  pointFadeSpeedFactor (_options g) > 0 ->
  0 < Square.distanceFromCenter sq <= _maxPointDistance g ->
  Square.opacity sq = 0 ->
  Square.speed sq > 0 ->
  updateSquare g sq = sq.
Proof.
  intros Hf Hfac Hd Hop Hsp.
  assert (Hgate : waveGate g sq = setSpeed (- Square.speed sq) sq).
  { unfold waveGate, normalizedDistance.
    rewrite jsDiv_pos, Hf by lra.
    assert (Hr : Square.distanceFromCenter sq / _maxPointDistance g > 0)
      by (apply Rdiv_lt_0_compat; lra).
    apply jsGt_Finite in Hr. rewrite Hr.
    destruct (Rgt_dec (Square.speed sq) 0); [|contradiction].
    simpl. rewrite Rabs_pos_eq by lra. reflexivity. }
  unfold updateSquare. rewrite Hgate.
  destruct sq as [x y op sp col d]. simpl in *. subst op.
  unfold bounce, integrate, setSpeed, setOpacity. simpl.
  assert (Hneg : 0 + - sp * pointFadeSpeedFactor (_options g) < 0) by nra.
  destruct (Rgt_dec _ 1); [lra|].
  destruct (Rlt_dec _ 0); [|lra].
  f_equal. lra.
Qed.

Lemma Forall2_map_step {A : Type} (P0 : A -> Prop) (Rel : A -> A -> Prop)
  (f : A -> A) (l0 l : list A) :
  Forall P0 l0 -> Forall2 Rel l0 l ->
  (forall a b, P0 a -> Rel a b -> Rel a (f b)) ->
  Forall2 Rel l0 (map f l).
Proof.
  intros HP H Hstep. induction H as [|a b l0 l Hab Hl IH]; simpl.
  - constructor.
  - inversion HP; subst. constructor; [apply Hstep; assumption|].
    apply IH. assumption.
Qed.

Lemma rest_is_kept (o : CardEffectOptions) (m0 : R) (l0 : list Square.t)
  (evs : list Event) :
  pointFadeSpeedFactor o > 0 ->
  Forall (fun a => Square.opacity a = 0 /\ Square.speed a > 0
                   /\ Square.distanceFromCenter a <= m0) l0 ->
  Forall (fun ev => ev <> MouseEnter) evs ->
  forall s s' : CardEffect,
    _mouseInCard s = false -> _fadeSpeed s = 0 -> _options s = o ->
    _maxPointDistance s = m0 ->
    Forall2 (fun a b => 0 < Square.distanceFromCenter a -> b = a)
            l0 (_squares s) ->
    run evs s = Ok s' ->
    Forall2 (fun a b => 0 < Square.distanceFromCenter a -> b = a)
            l0 (_squares s').
Proof.
  intros Hfac H0 Hev. induction Hev as [|ev rest Hne Hrest IH];
    intros s s' Hm Hf Ho Hmax Hrel Hrun; simpl in Hrun.
  - injection Hrun as <-. exact Hrel.
  - destruct (handle ev s) as [s1|e] eqn:Hh; simpl in Hrun; [|discriminate].
    destruct ev; simpl in Hh.
    + congruence.
    + injection Hh as <-.
      apply (IH (_onMouseLeave s) s'); try assumption. reflexivity.
    + apply drawGrid_Ok in Hh.
      destruct Hh as ((E1 & E2 & E3 & _ & E5 & E6 & _) & _).
      apply (IH s1 s'); congruence.
    + pose proof (animate_Ok _ _ Hh) as (Esq & Eo & Em & Ed & Ef & _).
      pose proof (easing_frame s) as (Go & _ & _ & Gd & _).
      pose proof (easing_idle s Hm Hf) as Gf.
      apply (IH s1 s'); try congruence.
      rewrite Esq. apply Forall2_map_step with (1 := H0); [exact Hrel|].
      intros a b (Hop & Hsp & Hd) Hab Hpos. rewrite (Hab Hpos).
      apply updateSquare_at_rest; try assumption.
      * rewrite Go, Ho. exact Hfac.
      * rewrite Gd, Hmax. lra.
Qed.

(** X9. An instance the pointer never entered stays dark away from the
    center: with [Math.random] in [0,1) and [minPointFadeSpeed > 0], after
    any sequence of frames, [drawGrid] calls and pointer-leave events, every
    square whose [distanceFromCenter] is positive is exactly as the
    constructor created it (opacity 0, speed unchanged). *)
Theorem dark_at_rest
  (canvas : Canvas) (o : CardEffectOptions) (rng : Rng)
  (s0 s : CardEffect) (evs : list Event) :
  constructor canvas o rng = Ok s0 ->
  (forall i, 0 <= draws rng i < 1) ->
  0 < minPointFadeSpeed o ->
  Forall (fun ev => ev <> MouseEnter) evs ->
  run evs s0 = Ok s ->
  Forall2 (fun sq0 sq => 0 < Square.distanceFromCenter sq0 -> sq = sq0)
          (_squares s0) (_squares s).
Proof.
  intros H Hrng Hmin Hev Hrun.
  pose proof (constructor_Ok _ _ _ _ H)
    as ((Hval & Hfac) & Ho & _ & _ & Hm & _ & Hf & Hmax & _ & F).
  pose proof (runMax_bounds (map Square.distanceFromCenter (_squares s0)) 0)
    as Hb.
  rewrite <- Hmax, Forall_map in Hb.
  apply (rest_is_kept o (_maxPointDistance s0) (_squares s0) evs)
    with (s := s0); try assumption; try reflexivity.
  - lra.
  - rewrite Forall_forall in *. intros a Hin.
    destruct (F a Hin) as (Hop & _ & i & j & Hsp & _).
    split; [exact Hop|]. split; [|exact (Hb a Hin)].
    rewrite Hsp. pose proof (Hrng i) as [Hi0 Hi1]. nra.
  - clear. induction (_squares s0); constructor; auto.
Qed.

Lemma dark_at_rest_witness :
  exists s0 s sq0 sq,
    constructor blankCanvas scenarioOptions halfRng = Ok s0 /\
    run [DrawGrid; Frame; Frame; MouseLeave; Frame] s0 = Ok s /\
    nth_error (_squares s0) 0 = Some sq0 /\
    nth_error (_squares s) 0 = Some sq /\
    sq = sq0.
Proof.
  destruct scenario_instance
    as (s0 & q0 & q1 & q2 & q3 & Hs0 & _ & _ & _ & _ & _ & Hsq & Hc & _
        & G0 & _).
  destruct (run_total [DrawGrid; Frame; Frame; MouseLeave; Frame] s0 Hc)
    as [s Hrun].
  assert (Hmin : 0 < minPointFadeSpeed scenarioOptions) by (simpl; lra).
  assert (Hev : Forall (fun ev => ev <> MouseEnter)
                  [DrawGrid; Frame; Frame; MouseLeave; Frame]).
  { repeat constructor; discriminate. }
  pose proof (dark_at_rest blankCanvas scenarioOptions halfRng s0 s _
                Hs0 halfRng_range Hmin Hev Hrun) as Hrest.
  rewrite Hsq in Hrest.
  inversion Hrest as [|a b l l' Hab Hl E1 E2]; subst.
  exists s0, s, q0, b. split; [exact Hs0|]. split; [exact Hrun|].
  split; [rewrite Hsq; reflexivity|]. split; [rewrite <- E2; reflexivity|].
  apply Hab. injection G0 as _ _ ->. pose proof sqrt_200_gt_10. lra.
Defined.

(** ** What a frame draws *)

Lemma forEachSquare_calls (sqs : list Square.t) :
  forall (s s' : CardEffect) (out : list Square.t),
    forEachSquare s sqs = Ok (s', out) ->
    calls (_ctx s')
    = calls (_ctx s) ++ flat_map (fillCall (squareSize (_options s))) out.
Proof.
  induction sqs as [|sq rest IH]; intros s s' out H; simpl in H.
  - injection H as <- <-. simpl. rewrite app_nil_r. reflexivity.
  - destruct (_drawSquare s (updateSquare s sq)) as [s1|e] eqn:Hd;
      simpl in H; [|discriminate].
    destruct (forEachSquare s1 rest) as [[s2 rest']|e] eqn:Hr;
      simpl in H; [|discriminate].
    injection H as <- <-.
    rewrite (IH _ _ _ Hr).
    apply drawSquare_Ok in Hd. destruct Hd as (c & Hcol & ->).
    simpl. unfold fillCall at 2. rewrite Hcol.
    rewrite <- app_assoc. reflexivity.
Qed.

(** X10. A frame that completes adds to the context exactly the calls a
    [drawGrid] would emit on the state the frame leaves (one [clearRect],
    then one [fillRect] per square at its updated opacity), so a [drawGrid]
    right after a frame repeats the picture of that frame; and the frame
    leaves the canvas' style opacity equal to [_opacityTouchFactor]. *)
Theorem frame_draws_the_state_it_leaves (s s' : CardEffect) :
  animateCardEffect s = Ok s' ->
  styleOpacity (_canvas s') = Some (_opacityTouchFactor s') /\
  exists out : list DrawCall,
    calls (_ctx s') = calls (_ctx s) ++ out /\
    List.length out = S (List.length (_squares s')) /\
    forall s'', drawGrid s' = Ok s'' ->
                calls (_ctx s'') = calls (_ctx s') ++ out.
Proof.
  unfold animateCardEffect. intros H.
  set (g := setStyleOpacity _ _) in H.
  destruct (forEachSquare g (_squares g)) as [[s2 out]|e] eqn:Hf;
    simpl in H; [|discriminate].
  injection H as <-.
  pose proof (forEachSquare_calls _ _ _ _ Hf) as Hcalls.
  pose proof (forEachSquare_Ok _ _ _ _ Hf)
    as (Hout & (So & _ & _ & St & _ & _ & Sw & Sh & Sop) & Hc).
  assert (Hgc : calls (_ctx g)
                = calls (_ctx s)
                  ++ [ClearRect 0 0 (width (_canvas s)) (height (_canvas s))]).
  { subst g. rewrite easing_resetCanvas.
    pose proof (easing_frame s) as (_ & _ & _ & _ & Ecv).
    unfold _ctx, setStyleOpacity, _resetCanvas, setCtx, setCanvas, clearRect.
    cbn. unfold _ctx. rewrite Ecv. reflexivity. }
  assert (Hgw : width (_canvas g) = width (_canvas s)
                /\ height (_canvas g) = height (_canvas s)).
  { subst g. rewrite easing_resetCanvas.
    pose proof (easing_frame s) as (_ & _ & _ & _ & Ecv).
    unfold setStyleOpacity, _resetCanvas, setCtx, setCanvas.
    cbn. rewrite Ecv. split; reflexivity. }
  destruct Hgw as (Hw & Hh).
  split.
  - change (styleOpacity (_canvas s2) = Some (_opacityTouchFactor s2)).
    rewrite <- Sop, <- St. reflexivity.
  - exists (gridCalls (setSquares out s2)). split; [|split].
    + change (calls (_ctx s2) = calls (_ctx s) ++ gridCalls (setSquares out s2)).
      rewrite Hcalls, Hgc, <- app_assoc. unfold gridCalls. simpl.
      rewrite <- Sw, <- Sh, <- So, Hw, Hh. reflexivity.
    + unfold gridCalls. simpl. f_equal. apply length_fillCalls.
      rewrite Hout. apply Forall_forall. intros sq Hin.
      apply in_map_iff in Hin. destruct Hin as (a & <- & Ha).
      unfold hasColor. rewrite updateSquare_color.
      rewrite Forall_forall in Hc. exact (Hc a Ha).
    + intros s'' Hd. exact (drawGrid_calls _ _ Hd).
Qed.

Lemma frame_draws_the_state_it_leaves_witness :
  exists s0 s1 s2 out,
    constructor blankCanvas scenarioOptions halfRng = Ok s0 /\
    animateCardEffect s0 = Ok s1 /\
    drawGrid s1 = Ok s2 /\
    List.length out = 5%nat /\
    calls (_ctx s2) = calls (_ctx s0) ++ out ++ out.
Proof.
  destruct scenario_instance
    as (s0 & q0 & q1 & q2 & q3 & Hs0 & _ & _ & _ & _ & _ & Hsq & Hc & _).
  destruct (animate_total s0 Hc) as [s1 H1].
  pose proof (animate_sameShape _ _ H1) as Hsh.
  destruct (drawGrid_total s1 (sameShape_hasColor _ _ Hsh Hc)) as [s2 H2].
  destruct (frame_draws_the_state_it_leaves s0 s1 H1)
    as (_ & out & Hout & Hlen & Hnext).
  exists s0, s1, s2, out. split; [exact Hs0|]. split; [exact H1|].
  split; [exact H2|]. split.
  - rewrite Hlen. destruct Hsh as (_ & _ & HF).
    apply Forall2_length in HF. rewrite <- HF, Hsq. reflexivity.
  - rewrite (Hnext s2 H2), Hout, <- app_assoc. reflexivity.
Defined.

(** ** The ramps over runs of events *)

(** A property of the two ramps that every easing step keeps is kept by
    every run of events. *)
Lemma run_ramps_invariant (o : CardEffectOptions) (P : R -> R -> Prop) :
  (forall (m : bool) (v w : R),
     P v w ->
     P ((if m then rampUp else rampDown) (fadeSpeedFactor o) v)
       ((if m then rampUp else rampDown) (cardSpeedFactor o) w)) ->
  forall (evs : list Event) (s s' : CardEffect),
    _options s = o ->
    P (_fadeSpeed s) (_opacityTouchFactor s) ->
    run evs s = Ok s' ->
    _options s' = o /\ P (_fadeSpeed s') (_opacityTouchFactor s').
Proof.
  intros Hstep evs. induction evs as [|ev rest IH];
    intros s s' Ho HP Hrun; simpl in Hrun.
  - injection Hrun as <-. split; assumption.
  - destruct (handle ev s) as [s1|e] eqn:Hh; simpl in Hrun; [|discriminate].
    apply (IH s1 s'); [| |exact Hrun]; destruct ev; simpl in Hh.
    + injection Hh as <-. exact Ho.
    + injection Hh as <-. exact Ho.
    + apply drawGrid_Ok in Hh. destruct Hh as ((E & _) & _). congruence.
    + apply animate_Ok in Hh. destruct Hh as (_ & E & _). congruence.
    + injection Hh as <-. exact HP.
    + injection Hh as <-. exact HP.
    + apply drawGrid_Ok in Hh.
      destruct Hh as ((_ & _ & _ & Et & _ & Ef & _) & _).
      rewrite <- Et, <- Ef. exact HP.
    + apply animate_Ok in Hh. destruct Hh as (_ & _ & _ & _ & Ef & Et & _).
      destruct (easing_scalars s) as (Gf & Gt).
      rewrite Ef, Et, Gf, Gt, Ho. apply Hstep. exact HP.
Qed.

(** X11. With positive easing factors, in every state an instance reaches
    each ramp is within one step of [0,1]:
    [- fadeSpeedFactor < _fadeSpeed < 1 + fadeSpeedFactor] and
    [- cardSpeedFactor < _opacityTouchFactor < 1 + cardSpeedFactor]. *)
Theorem ramps_stay_within_one_step
  (canvas : Canvas) (o : CardEffectOptions) (rng : Rng)
  (s0 s : CardEffect) (evs : list Event) :
  constructor canvas o rng = Ok s0 ->
  0 < fadeSpeedFactor o ->
  0 < cardSpeedFactor o ->
  run evs s0 = Ok s ->
  - fadeSpeedFactor o < _fadeSpeed s < 1 + fadeSpeedFactor o /\
  - cardSpeedFactor o < _opacityTouchFactor s < 1 + cardSpeedFactor o.
Proof.
  intros H Hff Hcf Hrun.
  pose proof (constructor_Ok _ _ _ _ H)
    as (_ & Ho & _ & _ & _ & Ht & Hf & _).
  apply (run_ramps_invariant o
           (fun v w => (- fadeSpeedFactor o < v < 1 + fadeSpeedFactor o)
                       /\ (- cardSpeedFactor o < w < 1 + cardSpeedFactor o))
           ) with (evs := evs) (s := s0) (s' := s); try assumption.
  - intros m v w (Hv & Hw). unfold rampUp, rampDown.
    destruct m.
    + destruct (Rlt_dec v 1); destruct (Rlt_dec w 1); lra.
    + destruct (Rgt_dec v 0); destruct (Rgt_dec w 0); lra.
  - rewrite Hf, Ht. lra.
Qed.

Lemma ramps_stay_within_one_step_witness :
  exists s0 s,
    constructor blankCanvas DEFAULT_OPTIONS halfRng = Ok s0 /\
    run (MouseEnter :: repeat Frame 16) s0 = Ok s /\
    _opacityTouchFactor s = 1.04 /\
    - 0.065 < _opacityTouchFactor s < 1 + 0.065.
Proof.
  destruct default_instance as (s0 & Hs0 & Ho & _ & Ht & Hc).
  destruct (default_hover_frames s0 16 Ho Ht Hc) as (s & Hrun & _ & _ & Hv).
  exists s0, s. split; [exact Hs0|]. split; [exact Hrun|].
  split; [rewrite Hv, rampUp_linear by (simpl; lra); simpl; lra|].
  assert (Hff : 0 < fadeSpeedFactor DEFAULT_OPTIONS) by (simpl; lra).
  assert (Hcf : 0 < cardSpeedFactor DEFAULT_OPTIONS) by (simpl; lra).
  pose proof (proj2 (ramps_stay_within_one_step blankCanvas DEFAULT_OPTIONS
                       halfRng s0 s _ Hs0 Hff Hcf Hrun)) as Hb.
  simpl in Hb. lra.
Defined.

(** X12. From a value within [0,1] and with positive factors, a frame
    moves each ramp toward its target and never past it by a full step:
    while hovering the new value is at least the old one and below
    [1 + factor]; otherwise it is at most the old one and above
    [- factor]. *)
Theorem ramps_move_toward_their_target (s s' : CardEffect) :
  animateCardEffect s = Ok s' ->
  0 < fadeSpeedFactor (_options s) ->
  0 < cardSpeedFactor (_options s) ->
  0 <= _fadeSpeed s <= 1 ->
  0 <= _opacityTouchFactor s <= 1 ->
  if _mouseInCard s
  then _fadeSpeed s <= _fadeSpeed s' < 1 + fadeSpeedFactor (_options s) /\
       _opacityTouchFactor s <= _opacityTouchFactor s'
       < 1 + cardSpeedFactor (_options s)
  else - fadeSpeedFactor (_options s) < _fadeSpeed s' <= _fadeSpeed s /\
       - cardSpeedFactor (_options s) < _opacityTouchFactor s'
       <= _opacityTouchFactor s.
Proof.
  intros H Hff Hcf Hv Hw. apply animate_Ok in H.
  destruct H as (_ & _ & _ & _ & Ef & Et & _).
  destruct (easing_scalars s) as (Gf & Gt). rewrite Ef, Et, Gf, Gt.
  destruct (_mouseInCard s); split;
    (apply rampUp_bounds || apply rampDown_bounds); assumption.
Qed.

Lemma ramps_move_toward_their_target_witness :
  exists s0 s1,
    constructor blankCanvas scenarioOptions halfRng = Ok s0 /\
    animateCardEffect (_onMouseEnter s0) = Ok s1 /\
    0 <= _fadeSpeed s1 < 1 + 0.04 /\
    0 <= _opacityTouchFactor s1 < 1 + 0.065.
Proof.
  destruct scenario_instance
    as (s0 & q0 & q1 & q2 & q3 & Hs0 & Ho & _ & Hf & Ht & _ & _ & Hc & _).
  destruct (animate_total (_onMouseEnter s0) Hc) as [s1 H1].
  exists s0, s1. split; [exact Hs0|]. split; [exact H1|].
  assert (Hff : 0 < fadeSpeedFactor (_options (_onMouseEnter s0)))
    by (simpl _options; rewrite Ho; simpl; lra).
  assert (Hcf : 0 < cardSpeedFactor (_options (_onMouseEnter s0)))
    by (simpl _options; rewrite Ho; simpl; lra).
  assert (Hv : 0 <= _fadeSpeed (_onMouseEnter s0) <= 1)
    by (simpl _fadeSpeed; rewrite Hf; lra).
  assert (Hw : 0 <= _opacityTouchFactor (_onMouseEnter s0) <= 1)
    by (simpl _opacityTouchFactor; rewrite Ht; lra).
  pose proof (ramps_move_toward_their_target (_onMouseEnter s0) s1
                H1 Hff Hcf Hv Hw) as Hmove.
  simpl _mouseInCard in Hmove. simpl _options in Hmove.
  simpl _fadeSpeed in Hmove. simpl _opacityTouchFactor in Hmove.
  rewrite Ho, Hf, Ht in Hmove. simpl in Hmove. exact Hmove.
Defined.

(** ** Settling *)

(** The ramps after [n] frames in a row, no pointer event in between. *)
Lemma frames_values (n : nat) :
  forall s sn : CardEffect,
    run (repeat Frame n) s = Ok sn ->
    _mouseInCard sn = _mouseInCard s /\
    _options sn = _options s /\
    _fadeSpeed sn
    = Nat.iter n ((if _mouseInCard s then rampUp else rampDown)
                    (fadeSpeedFactor (_options s))) (_fadeSpeed s) /\
    _opacityTouchFactor sn
    = Nat.iter n ((if _mouseInCard s then rampUp else rampDown)
                    (cardSpeedFactor (_options s))) (_opacityTouchFactor s).
Proof.
  induction n as [|n IH]; intros s sn Hrun; simpl in Hrun.
  - injection Hrun as <-. repeat split.
  - destruct (animateCardEffect s) as [s1|e] eqn:H1; simpl in Hrun;
      [|discriminate].
    pose proof (animate_Ok _ _ H1) as (_ & Ho & Hm & _ & Hf & Ht & _).
    destruct (easing_scalars s) as (Ef & Et).
    destruct (IH s1 sn Hrun) as (Hmn & Hon & Hfn & Htn).
    rewrite Hmn, Hon, Hfn, Htn, Hm, Ho, Hf, Ht, Ef, Et.
    rewrite !Nat.iter_succ_r. repeat split.
Qed.

Lemma ceil_bounds (v : R) : IZR (ceil v) - 1 < v <= IZR (ceil v).
Proof.
  unfold ceil. rewrite opp_IZR.
  destruct (base_Int_part (- v)) as [Hle Hgt]. lra.
Qed.

Lemma rampUp_at_one (f : R) (k : nat) : Nat.iter k (rampUp f) 1 = 1.
Proof.
  induction k as [|k IH]; [reflexivity|].
  simpl. rewrite IH. unfold rampUp. destruct (Rlt_dec 1 1); lra.
Qed.

(** From 0, a ramp of positive step [f] is exactly 1 after
    [ceil(1 / f) + 1] hovering frames and after every later one, hence after
    [settleFrames f] of them. *)
Lemma rampUp_settles (f : R) (n : nat) :
  0 < f -> (settleFrames f <= n)%nat -> Nat.iter n (rampUp f) 0 = 1.
Proof.
  intros Hf Hn. unfold settleFrames in Hn.
  set (N := Z.to_nat (ceil (1 / f))) in *.
  destruct (ceil_bounds (1 / f)) as [Hlo Hhi].
  assert (Hx : 1 / f * f = 1) by (field; lra).
  assert (Hxpos : 0 < 1 / f) by (apply Rdiv_lt_0_compat; lra).
  assert (Hc0 : (0 <= ceil (1 / f))%Z) by (apply le_IZR; lra).
  assert (HN : INR N = IZR (ceil (1 / f))).
  { subst N. rewrite INR_IZR_INZ, Z2Nat.id by exact Hc0. reflexivity. }
  assert (Hge : 1 <= INR N * f) by (rewrite HN; nra).
  assert (Hlt : INR N * f < 1 + f) by (rewrite HN; nra).
  replace n with ((n - S N) + S N)%nat by lia.
  rewrite Nat.iter_add.
  assert (HSN : Nat.iter (S N) (rampUp f) 0 = 1).
  { rewrite (Nat.iter_succ N R (rampUp f) 0), rampUp_linear by assumption.
    unfold rampUp. destruct (Rlt_dec (INR N * f) 1); lra. }
  rewrite HSN. apply rampUp_at_one.
Qed.

(** A falling ramp is the mirror image of a rising one. *)
Lemma rampDown_mirror (f : R) (k : nat) (v : R) :
  Nat.iter k (rampDown f) v = 1 - Nat.iter k (rampUp f) (1 - v).
Proof.
  induction k as [|k IH]; simpl; [lra|].
  rewrite IH. unfold rampDown, rampUp.
  destruct (Rgt_dec _ 0); destruct (Rlt_dec _ 1); lra.
Qed.

Lemma rampDown_settles (f : R) (n : nat) :
  0 < f -> (settleFrames f <= n)%nat -> Nat.iter n (rampDown f) 1 = 0.
Proof.
  intros Hf Hn. rewrite rampDown_mirror.
  replace (1 - 1) with 0 by lra. rewrite rampUp_settles by assumption. lra.
Qed.

(** X13. With positive easing factors, after the pointer entered a fresh
    instance, both ramps are exactly 1 once [ceil(1/factor) + 2] frames have
    run and stay 1 on every later frame; after the pointer then left, both
    are exactly 0 once that many frames have run again, and stay 0: a hover
    followed by a leave brings the ramps back to where they started. *)
Theorem hover_and_leave_settle
  (canvas : Canvas) (o : CardEffectOptions) (rng : Rng)
  (s0 s1 s2 : CardEffect) (n m : nat) :
  constructor canvas o rng = Ok s0 ->
  0 < fadeSpeedFactor o ->
  0 < cardSpeedFactor o ->
  (settleFrames (fadeSpeedFactor o) <= n)%nat ->
  (settleFrames (cardSpeedFactor o) <= n)%nat ->
  (settleFrames (fadeSpeedFactor o) <= m)%nat ->
  (settleFrames (cardSpeedFactor o) <= m)%nat ->
  run (MouseEnter :: repeat Frame n) s0 = Ok s1 ->
  run (MouseLeave :: repeat Frame m) s1 = Ok s2 ->
  (_fadeSpeed s1 = 1 /\ _opacityTouchFactor s1 = 1) /\
  (_fadeSpeed s2 = 0 /\ _opacityTouchFactor s2 = 0).
Proof.
  intros H Hff Hcf Hn1 Hn2 Hm1 Hm2 Hrun1 Hrun2.
  pose proof (constructor_Ok _ _ _ _ H)
    as (_ & Ho & _ & _ & _ & Ht & Hf & _).
  change (run (repeat Frame n) (_onMouseEnter s0) = Ok s1) in Hrun1.
  change (run (repeat Frame m) (_onMouseLeave s1) = Ok s2) in Hrun2.
  destruct (frames_values n _ _ Hrun1) as (_ & Ho1 & Hf1 & Ht1).
  destruct (frames_values m _ _ Hrun2) as (_ & _ & Hf2 & Ht2).
  simpl _mouseInCard in *. simpl _options in *.
  simpl _fadeSpeed in *. simpl _opacityTouchFactor in *.
  rewrite Ho, Hf, Ht in *.
  assert (E1 : _fadeSpeed s1 = 1)
    by (rewrite Hf1; apply rampUp_settles; assumption).
  assert (E2 : _opacityTouchFactor s1 = 1)
    by (rewrite Ht1; apply rampUp_settles; assumption).
  split; [split; assumption|].
  rewrite Ho1, E1 in Hf2. rewrite Ho1, E2 in Ht2.
  split.
  - rewrite Hf2. apply rampDown_settles; assumption.
  - rewrite Ht2. apply rampDown_settles; assumption.
Qed.

Lemma settleFrames_default_card :
  settleFrames (cardSpeedFactor DEFAULT_OPTIONS) = 18%nat.
Proof. unfold settleFrames. rewrite ceil_default_card. reflexivity. Qed.

Lemma settleFrames_default_fade :
  settleFrames (fadeSpeedFactor DEFAULT_OPTIONS) = 27%nat.
Proof.
  unfold settleFrames, ceil. simpl fadeSpeedFactor.
  rewrite <- (Int_part_spec (- (1 / 0.04)) (-25)); [reflexivity|]. lra.
Qed.

Lemma hover_and_leave_settle_witness :
  exists s0 s1 s2,
    constructor blankCanvas DEFAULT_OPTIONS halfRng = Ok s0 /\
    run (MouseEnter :: repeat Frame 27) s0 = Ok s1 /\
    run (MouseLeave :: repeat Frame 30) s1 = Ok s2 /\
    (_fadeSpeed s1 = 1 /\ _opacityTouchFactor s1 = 1) /\
    (_fadeSpeed s2 = 0 /\ _opacityTouchFactor s2 = 0).
Proof.
  destruct default_instance as (s0 & Hs0 & _ & _ & _ & Hc).
  destruct (run_total (MouseEnter :: repeat Frame 27) s0 Hc) as [s1 H1].
  pose proof (sameShape_hasColor _ _ (run_sameShape _ _ _ H1) Hc) as Hc1.
  destruct (run_total (MouseLeave :: repeat Frame 30) s1 Hc1) as [s2 H2].
  exists s0, s1, s2. split; [exact Hs0|]. split; [exact H1|].
  split; [exact H2|].
  apply (hover_and_leave_settle blankCanvas DEFAULT_OPTIONS halfRng
           s0 s1 s2 27 30 Hs0); try assumption.
  - simpl. lra.
  - simpl. lra.
  - rewrite settleFrames_default_fade. lia.
  - rewrite settleFrames_default_card. lia.
  - rewrite settleFrames_default_fade. lia.
  - rewrite settleFrames_default_card. lia.
Defined.

(** ** A wave front that cannot move *)

Lemma frozen_is_kept (o : CardEffectOptions) (m0 : R) (l0 : list Square.t)
  (evs : list Event) :
  pointFadeSpeedFactor o > 0 ->
  fadeSpeedFactor o = 0 ->
  Forall (fun a => Square.opacity a = 0 /\ Square.speed a > 0
                   /\ Square.distanceFromCenter a <= m0) l0 ->
  forall s s' : CardEffect,
    _fadeSpeed s = 0 -> _options s = o -> _maxPointDistance s = m0 ->
    Forall2 (fun a b => 0 < Square.distanceFromCenter a -> b = a)
            l0 (_squares s) ->
    run evs s = Ok s' ->
    _fadeSpeed s' = 0 /\
    Forall2 (fun a b => 0 < Square.distanceFromCenter a -> b = a)
            l0 (_squares s').
Proof.
  intros Hfac Hzero H0. induction evs as [|ev rest IH];
    intros s s' Hf Ho Hmax Hrel Hrun; simpl in Hrun.
  - injection Hrun as <-. split; assumption.
  - destruct (handle ev s) as [s1|e] eqn:Hh; simpl in Hrun; [|discriminate].
    assert (Hg : _fadeSpeed (easing s) = 0).
    { destruct (easing_scalars s) as (-> & _). rewrite Ho, Hzero, Hf.
      unfold rampUp, rampDown.
      destruct (_mouseInCard s);
        [destruct (Rlt_dec 0 1) | destruct (Rgt_dec 0 0)]; lra. }
    destruct ev; simpl in Hh.
    + injection Hh as <-. apply (IH (_onMouseEnter s) s'); assumption.
    + injection Hh as <-. apply (IH (_onMouseLeave s) s'); assumption.
    + apply drawGrid_Ok in Hh.
      destruct Hh as ((E1 & E2 & E3 & _ & E5 & E6 & _) & _).
      apply (IH s1 s'); congruence.
    + pose proof (animate_Ok _ _ Hh) as (Esq & Eo & Em & Ed & Ef & _).
      pose proof (easing_frame s) as (Go & _ & _ & Gd & _).
      apply (IH s1 s'); try congruence.
      rewrite Esq. apply Forall2_map_step with (1 := H0); [exact Hrel|].
      intros a b (Hop & Hsp & Hd) Hab Hpos. rewrite (Hab Hpos).
      apply updateSquare_at_rest; try assumption.
      * rewrite Go, Ho. exact Hfac.
      * rewrite Gd, Hmax. lra.
Qed.

(** X14. The constructor does not check [fadeSpeedFactor]: with
    [fadeSpeedFactor = 0] construction succeeds as for any other value, the
    wave front is 0 in every state the instance reaches, and (with
    [Math.random] in [0,1) and [minPointFadeSpeed > 0]) every square whose
    [distanceFromCenter] is positive stays exactly as created, hovered or
    not. *)
Theorem zero_fade_factor_never_lights
  (canvas : Canvas) (o : CardEffectOptions) (rng : Rng)
  (s0 s : CardEffect) (evs : list Event) :
  constructor canvas o rng = Ok s0 ->
  (forall i, 0 <= draws rng i < 1) ->
  0 < minPointFadeSpeed o ->
  fadeSpeedFactor o = 0 ->
  run evs s0 = Ok s ->
  _fadeSpeed s = 0 /\
  Forall2 (fun sq0 sq => 0 < Square.distanceFromCenter sq0 -> sq = sq0)
          (_squares s0) (_squares s).
Proof.
  intros H Hrng Hmin Hzero Hrun.
  pose proof (constructor_Ok _ _ _ _ H)
    as ((Hval & Hfac) & Ho & _ & _ & Hm & _ & Hf & Hmax & _ & F).
  pose proof (runMax_bounds (map Square.distanceFromCenter (_squares s0)) 0)
    as Hb.
  rewrite <- Hmax, Forall_map in Hb.
  apply (frozen_is_kept o (_maxPointDistance s0) (_squares s0) evs)
    with (s := s0); try assumption; try reflexivity.
  - lra.
  - rewrite Forall_forall in *. intros a Hin.
    destruct (F a Hin) as (Hop & _ & i & j & Hsp & _).
    split; [exact Hop|]. split; [|exact (Hb a Hin)].
    rewrite Hsp. pose proof (Hrng i) as [Hi0 Hi1]. nra.
  - clear. induction (_squares s0); constructor; auto.
Qed.

Lemma frozenOptions_valid : validOptions frozenOptions.
Proof. unfold validOptions. simpl. lra. Qed.

Lemma zero_fade_factor_never_lights_witness :
  exists s0 s,
    constructor blankCanvas frozenOptions halfRng = Ok s0 /\
    run (MouseEnter :: repeat Frame 40) s0 = Ok s /\
    _mouseInCard s = true /\
    _fadeSpeed s = 0.
Proof.
  destruct (constructor_total blankCanvas frozenOptions halfRng
              frozenOptions_valid) as [s0 Hs0].
  assert (Hpal : colors frozenOptions <> []) by discriminate.
  pose proof (constructor_hasColor _ _ _ _ Hs0 Hpal halfRng_range) as Hc.
  destruct (frames_hovering 40 (_onMouseEnter s0) eq_refl Hc)
    as (s & Hrun & Hm & _).
  assert (Hrun' : run (MouseEnter :: repeat Frame 40) s0 = Ok s) by exact Hrun.
  assert (Hmin : 0 < minPointFadeSpeed frozenOptions) by (simpl; lra).
  exists s0, s. split; [exact Hs0|]. split; [exact Hrun'|].
  split; [exact Hm|].
  exact (proj1 (zero_fade_factor_never_lights blankCanvas frozenOptions
                  halfRng s0 s _ Hs0 halfRng_range Hmin eq_refl Hrun')).
Defined.

(** ** Squares on the surface *)

Lemma in_grid {A : Type} (f : nat -> nat -> A) (n : nat) (a : A) :
  In a (flat_map (fun row => map (f row) (seq 0 n)) (seq 0 n)) ->
  exists row col, (row < n)%nat /\ (col < n)%nat /\ a = f row col.
Proof.
  intros H. apply in_flat_map in H. destruct H as (row & Hrow & H).
  apply in_map_iff in H. destruct H as (col & <- & Hcol).
  apply in_seq in Hrow. apply in_seq in Hcol.
  exists row, col. repeat split; lia.
Qed.

(** X15. When [cellSize] and [gapSize] are integers, the gap is not
    negative, the square fits its cell ([0 <= squareSize <= cellSize]) and
    the side [gridCells*(cellSize+gapSize) - gapSize] is at most 2147483647
    (so that the canvas reads back the side it was given), every square lies
    within the canvas: [0 <= x], [x + squareSize <= width], [0 <= y] and
    [y + squareSize <= height]. *)
Theorem squares_lie_on_the_surface
  (canvas : Canvas) (o : CardEffectOptions) (rng : Rng) (s : CardEffect) :
  constructor canvas o rng = Ok s ->
  (exists a b : Z, cellSize o = IZR a /\ gapSize o = IZR b) ->
  0 <= squareSize o <= cellSize o ->
  0 <= gapSize o ->
  INR (gridCells o) * (cellSize o + gapSize o) - gapSize o <= 2147483647 ->
  Forall (fun sq =>
            0 <= Square.x sq /\
            Square.x sq + squareSize o <= width (_canvas s) /\
            0 <= Square.y sq /\
            Square.y sq + squareSize o <= height (_canvas s))
         (_squares s).
Proof.
  intros H (a & b & Ha & Hb) Hsq Hgap Hmax.
  pose proof (constructor_Ok _ _ _ _ H)
    as (_ & _ & Hw & Hh & _ & _ & _ & _ & G & _).
  apply Forall_forall. intros sq Hin.
  assert (Hcells : (0 < gridCells o)%nat).
  { pose proof (constructor_length _ _ _ _ H) as Hlen.
    destruct (_squares s); [contradiction | simpl in Hlen; nia]. }
  assert (Hside : 0 <= side o <= 2147483647).
  { split; [|exact Hmax]. unfold side.
    assert (H1 : 1 <= INR (gridCells o)).
    { replace 1 with (INR 1) by reflexivity. apply le_INR. lia. }
    nra. }
  pose proof (integer_cells_integralSide o a b Ha Hb Hside) as Hint.
  destruct (integralSide_canvas o Hint) as (Hcw & Hch).
  rewrite Hcw in Hw. rewrite Hch in Hh.
  assert (Hg : In (geometry sq) (map geometry (_squares s)))
    by (apply in_map; exact Hin).
  rewrite G in Hg. apply in_grid in Hg.
  destruct Hg as (row & col & Hrow & Hcol & Hgeo).
  unfold geometry, cellGeometry in Hgeo. injection Hgeo as Hx Hy _.
  rewrite Hw, Hh, Hx, Hy. unfold side.
  assert (Hr0 : 0 <= INR row) by apply pos_INR.
  assert (Hc0 : 0 <= INR col) by apply pos_INR.
  assert (Hr1 : INR row + 1 <= INR (gridCells o)).
  { rewrite <- S_INR. apply le_INR. lia. }
  assert (Hc1 : INR col + 1 <= INR (gridCells o)).
  { rewrite <- S_INR. apply le_INR. lia. }
  repeat split; nra.
Qed.

Lemma squares_lie_on_the_surface_witness :
  exists s,
    constructor blankCanvas DEFAULT_OPTIONS halfRng = Ok s /\
    List.length (_squares s) = 2500%nat /\
    Forall (fun sq => 0 <= Square.x sq /\ Square.x sq + 25 <= 2500 /\
                      0 <= Square.y sq /\ Square.y sq + 25 <= 2500)
           (_squares s).
Proof.
  destruct default_instance as (s & Hs & _).
  exists s. split; [exact Hs|].
  split; [exact (constructor_length _ _ _ _ Hs)|].
  assert (Hsq : 0 <= squareSize DEFAULT_OPTIONS <= cellSize DEFAULT_OPTIONS)
    by (simpl; lra).
  assert (Hgap : 0 <= gapSize DEFAULT_OPTIONS) by (simpl; lra).
  assert (Hside : side DEFAULT_OPTIONS = 2500).
  { unfold side. simpl gridCells. simpl cellSize. simpl gapSize.
    replace (INR 50) with 50 by (simpl; lra). lra. }
  assert (Hint : integralSide DEFAULT_OPTIONS).
  { exists 2500%Z. split; [lia | exact Hside]. }
  assert (Hcells : exists a b : Z,
             cellSize DEFAULT_OPTIONS = IZR a
             /\ gapSize DEFAULT_OPTIONS = IZR b).
  { exists 50%Z, 0%Z. split; reflexivity. }
  assert (Hmax : INR (gridCells DEFAULT_OPTIONS)
                 * (cellSize DEFAULT_OPTIONS + gapSize DEFAULT_OPTIONS)
                 - gapSize DEFAULT_OPTIONS <= 2147483647).
  { change (side DEFAULT_OPTIONS <= 2147483647). rewrite Hside. lra. }
  pose proof (squares_lie_on_the_surface blankCanvas DEFAULT_OPTIONS halfRng
                s Hs Hcells Hsq Hgap Hmax) as Hin.
  pose proof (constructor_Ok _ _ _ _ Hs) as (_ & _ & Hw & Hh & _).
  destruct (integralSide_canvas _ Hint) as (Hcw & Hch).
  rewrite Hw, Hh, Hcw, Hch, Hside in Hin. exact Hin.
Defined.

(** ** The draws behind the squares *)

Lemma layoutCell_draws (row col : nat) (st : CardEffect * Rng) :
  exists sq,
    _squares (fst (layoutCell row col st)) = _squares (fst st) ++ [sq] /\
    fromDraws (_options (fst st)) (draws (snd st)) (cursor (snd st)) sq /\
    cursor (snd (layoutCell row col st)) = (cursor (snd st) + 2)%nat /\
    draws (snd (layoutCell row col st)) = draws (snd st) /\
    _options (fst (layoutCell row col st)) = _options (fst st).
Proof.
  destruct st as [[cv o sqs m otf mpd fs] [dr cu]].
  unfold layoutCell, _randomSpeed, _randomColor, Math_random, fromDraws,
    setSquares, setMaxPointDistance.
  cbn -[pow sqrt Rlt_dec INR Math_floor arrayGet].
  eexists. split.
  - destruct (Rlt_dec mpd _); reflexivity.
  - cbn -[pow sqrt Rlt_dec INR Math_floor arrayGet].
    split; [split; reflexivity|].
    destruct (Rlt_dec mpd _); cbn; repeat split; lia.
Qed.

Lemma layoutRow_draws (row : nat) (cols : list nat) :
  forall st : CardEffect * Rng,
  exists news,
    _squares (fst (layoutRow cols row st)) = _squares (fst st) ++ news /\
    List.length news = List.length cols /\
    (forall j sq, nth_error news j = Some sq ->
       fromDraws (_options (fst st)) (draws (snd st))
                 (cursor (snd st) + 2 * j) sq) /\
    cursor (snd (layoutRow cols row st))
    = (cursor (snd st) + 2 * List.length cols)%nat /\
    draws (snd (layoutRow cols row st)) = draws (snd st) /\
    _options (fst (layoutRow cols row st)) = _options (fst st).
Proof.
  induction cols as [|col cols IH]; intros st.
  - exists []. simpl. rewrite app_nil_r.
    split; [reflexivity|]. split; [lia|].
    split; [intros j q Hj; destruct j; discriminate Hj|].
    split; [lia|]. split; reflexivity.
  - destruct (layoutCell_draws row col st) as (sq & E & D & C & Dr & O).
    destruct (IH (layoutCell row col st))
      as (news & E' & L' & D' & C' & Dr' & O').
    exists (sq :: news).
    change (layoutRow (col :: cols) row st)
      with (layoutRow cols row (layoutCell row col st)).
    rewrite E', E, C', C, Dr', Dr, O', O, <- app_assoc. simpl.
    split; [reflexivity|]. split; [lia|].
    split; [|split; [lia|split; reflexivity]].
    intros j q Hj. destruct j as [|j]; simpl in Hj.
    + injection Hj as <-. rewrite Nat.add_0_r. exact D.
    + specialize (D' j q Hj). rewrite O, Dr, C in D'.
      match goal with
      | |- fromDraws _ _ ?k _ =>
          replace k with (cursor (snd st) + 2 + 2 * j)%nat by lia
      end.
      exact D'.
Qed.

Lemma layoutRows_draws (cols rows : list nat) :
  forall st : CardEffect * Rng,
  exists news,
    _squares (fst (layoutRows rows cols st)) = _squares (fst st) ++ news /\
    List.length news = (List.length rows * List.length cols)%nat /\
    (forall j sq, nth_error news j = Some sq ->
       fromDraws (_options (fst st)) (draws (snd st))
                 (cursor (snd st) + 2 * j) sq) /\
    cursor (snd (layoutRows rows cols st))
    = (cursor (snd st) + 2 * (List.length rows * List.length cols))%nat /\
    draws (snd (layoutRows rows cols st)) = draws (snd st) /\
    _options (fst (layoutRows rows cols st)) = _options (fst st).
Proof.
  induction rows as [|row rows IH]; intros st.
  - exists []. simpl. rewrite app_nil_r.
    split; [reflexivity|]. split; [lia|].
    split; [intros j q Hj; destruct j; discriminate Hj|].
    split; [lia|]. split; reflexivity.
  - destruct (layoutRow_draws row cols st) as (xs & E & L & D & C & Dr & O).
    destruct (IH (layoutRow cols row st))
      as (ys & E' & L' & D' & C' & Dr' & O').
    exists (xs ++ ys).
    change (layoutRows (row :: rows) cols st)
      with (layoutRows rows cols (layoutRow cols row st)).
    rewrite E', E, C', C, Dr', Dr, O', O, <- app_assoc, length_app, L, L'.
    split; [reflexivity|]. split; [simpl; lia|].
    split; [|split; [simpl; lia|split; reflexivity]].
    intros j q Hj.
    destruct (Nat.lt_ge_cases j (List.length xs)) as [Hlt|Hge].
    + rewrite nth_error_app1 in Hj by exact Hlt. exact (D j q Hj).
    + rewrite nth_error_app2 in Hj by exact Hge.
      specialize (D' _ q Hj). rewrite O, Dr, C in D'.
      match goal with
      | |- fromDraws _ _ ?k _ =>
          replace k with (cursor (snd st) + 2 * List.length cols
                          + 2 * (j - List.length xs))%nat by lia
      end.
      exact D'.
Qed.

(** X16. The layout calls [Math.random] twice per square, in array order:
    the square at index [k] takes its speed from the draw at position
    [2k] after the cursor, as
    [draw * (maxPointFadeSpeed - minPointFadeSpeed + 1) + minPointFadeSpeed],
    and its color from the next draw, as
    [colors[floor(draw * colors.length)]]; in all,
    [_resetSquaresPoints] advances the stream by [2 * gridCells * gridCells]
    draws. *)
Theorem squares_take_consecutive_draws
  (canvas : Canvas) (o : CardEffectOptions) (rng : Rng) (s : CardEffect) :
  constructor canvas o rng = Ok s ->
  (forall (k : nat) (sq : Square.t),
     nth_error (_squares s) k = Some sq ->
     Square.speed sq
     = draws rng (cursor rng + 2 * k)
       * (maxPointFadeSpeed o - minPointFadeSpeed o + 1)
       + minPointFadeSpeed o /\
     Square.color sq
     = arrayGet (colors o)
         (Math_floor (draws rng (S (cursor rng + 2 * k))
                      * INR (List.length (colors o))))) /\
  (forall s1 : CardEffect,
     _options s1 = o ->
     cursor (snd (_resetSquaresPoints (s1, rng)))
     = (cursor rng + 2 * (gridCells o * gridCells o))%nat).
Proof.
  intros H. split.
  - unfold constructor in H.
    destruct (Rlt_dec _ _); [discriminate|].
    destruct (Rle_dec _ _); [discriminate|].
    injection H as <-. unfold _resetSquaresPoints.
    match goal with
    | |- context [layoutRows ?rows ?cols ?st] =>
        destruct (layoutRows_draws cols rows st)
          as (news & E & _ & D & _)
    end.
    rewrite E. simpl. intros k sq Hk. exact (D k sq Hk).
  - intros s1 Ho. unfold _resetSquaresPoints.
    match goal with
    | |- context [layoutRows ?rows ?cols ?st] =>
        destruct (layoutRows_draws cols rows st)
          as (news & _ & _ & _ & C & _)
    end.
    rewrite C. simpl. rewrite Ho, !length_seq. reflexivity.
Qed.

Lemma squares_take_consecutive_draws_witness :
  exists s sq,
    constructor blankCanvas scenarioOptions halfRng = Ok s /\
    nth_error (_squares s) 3 = Some sq /\
    Square.speed sq = 5.5.
Proof.
  destruct scenario_instance
    as (s & q0 & q1 & q2 & q3 & Hs & _ & _ & _ & _ & _ & Hsq & _).
  exists s, q3. split; [exact Hs|].
  assert (H3 : nth_error (_squares s) 3 = Some q3)
    by (rewrite Hsq; reflexivity).
  split; [exact H3|].
  destruct (squares_take_consecutive_draws blankCanvas scenarioOptions
              halfRng s Hs) as (Hdraws & _).
  destruct (Hdraws 3%nat q3 H3) as (Hsp & _).
  rewrite Hsp. simpl. lra.
Defined.

(** ** No two squares overlap *)

Lemma nth_error_row {A : Type} (g : nat -> A) (m c : nat) :
  (c < m)%nat -> nth_error (map g (seq 0 m)) c = Some (g c).
Proof.
  intros Hc. rewrite nth_error_map, nth_error_seq.
  destruct (Nat.ltb_spec c m); [reflexivity | lia].
Qed.

Lemma nth_error_grid {A : Type} (f : nat -> nat -> A) (m : nat) :
  forall n a r c,
    (r < n)%nat -> (c < m)%nat ->
    nth_error (flat_map (fun row => map (f row) (seq 0 m)) (seq a n))
              (r * m + c)
    = Some (f (a + r)%nat c).
Proof.
  induction n as [|n IH]; intros a r c Hr Hc; [lia|].
  simpl seq. simpl flat_map.
  destruct r as [|r].
  - simpl. rewrite nth_error_app1 by (rewrite length_map, length_seq; exact Hc).
    rewrite Nat.add_0_r. apply nth_error_row. exact Hc.
  - rewrite nth_error_app2 by (rewrite length_map, length_seq; simpl; lia).
    rewrite length_map, length_seq.
    replace (S r * m + c - m)%nat with (r * m + c)%nat by (simpl; lia).
    rewrite IH by lia. f_equal. f_equal. lia.
Qed.

(** The geometry of the square at an index of the array. *)
Lemma geometry_at_index (canvas : Canvas) (o : CardEffectOptions) (rng : Rng)
  (s : CardEffect) (i : nat) (sq : Square.t) :
  constructor canvas o rng = Ok s ->
  nth_error (_squares s) i = Some sq ->
  exists row col,
    (row < gridCells o)%nat /\ (col < gridCells o)%nat /\
    i = (row * gridCells o + col)%nat /\
    geometry sq = cellGeometry o (canvasWidth o) (canvasHeight o) row col.
Proof.
  intros H Hi.
  pose proof (constructor_length _ _ _ _ H) as Hlen.
  pose proof (constructor_Ok _ _ _ _ H)
    as (_ & _ & _ & _ & _ & _ & _ & _ & G & _).
  assert (Hlt : (i < gridCells o * gridCells o)%nat).
  { rewrite <- Hlen. apply nth_error_Some. congruence. }
  assert (Hn : gridCells o <> 0%nat) by nia.
  pose proof (Nat.div_mod i (gridCells o) Hn) as Hdm.
  pose proof (Nat.mod_upper_bound i (gridCells o) Hn) as Hc.
  assert (Hr : (i / gridCells o < gridCells o)%nat)
    by (apply Nat.Div0.div_lt_upper_bound; exact Hlt).
  exists (i / gridCells o)%nat, (i mod gridCells o)%nat.
  split; [exact Hr|]. split; [exact Hc|]. split; [lia|].
  assert (Hg : nth_error (map geometry (_squares s)) i = Some (geometry sq))
    by (apply map_nth_error; exact Hi).
  rewrite G in Hg.
  replace i with (i / gridCells o * gridCells o + i mod gridCells o)%nat
    in Hg at 1 by lia.
  rewrite nth_error_grid in Hg by assumption.
  rewrite Nat.add_0_l in Hg. congruence.
Qed.

(** X17. When the square is not larger than the pitch of the grid
    ([0 <= squareSize <= cellSize + gapSize]), the rectangles filled for two
    different squares of the array do not overlap: one of them ends, in [x]
    or in [y], where or before the other begins. *)
Theorem squares_do_not_overlap
  (canvas : Canvas) (o : CardEffectOptions) (rng : Rng) (s : CardEffect)
  (i j : nat) (sq sq' : Square.t) :
  constructor canvas o rng = Ok s ->
  0 <= squareSize o <= cellSize o + gapSize o ->
  i <> j ->
  nth_error (_squares s) i = Some sq ->
  nth_error (_squares s) j = Some sq' ->
  Square.x sq + squareSize o <= Square.x sq' \/
  Square.x sq' + squareSize o <= Square.x sq \/
  Square.y sq + squareSize o <= Square.y sq' \/
  Square.y sq' + squareSize o <= Square.y sq.
Proof.
  intros H Hsize Hij Hi Hj.
  destruct (geometry_at_index _ _ _ _ _ _ H Hi)
    as (r & c & _ & _ & Ei & Gi).
  destruct (geometry_at_index _ _ _ _ _ _ H Hj)
    as (r' & c' & _ & _ & Ej & Gj).
  unfold geometry, cellGeometry in Gi, Gj.
  injection Gi as Xi Yi _. injection Gj as Xj Yj _.
  rewrite Xi, Yi, Xj, Yj.
  assert (Hstep : forall a b : nat,
            (a < b)%nat -> INR a + 1 <= INR b).
  { intros a b Hab. rewrite <- S_INR. apply le_INR. lia. }
  destruct (Nat.lt_trichotomy c c') as [Hc|[Hc|Hc]].
  - left. pose proof (Hstep _ _ Hc). nra.
  - subst c'. assert (Hr : r <> r') by (intros ->; apply Hij; lia).
    destruct (Nat.lt_trichotomy r r') as [Hr'|[Hr'|Hr']]; [|contradiction|].
    + right. right. left. pose proof (Hstep _ _ Hr'). nra.
    + right. right. right. pose proof (Hstep _ _ Hr'). nra.
  - right. left. pose proof (Hstep _ _ Hc). nra.
Qed.

Lemma squares_do_not_overlap_witness :
  exists s sq sq',
    constructor blankCanvas scenarioOptions halfRng = Ok s /\
    nth_error (_squares s) 0 = Some sq /\
    nth_error (_squares s) 3 = Some sq' /\
    (Square.x sq + 10 <= Square.x sq' \/
     Square.x sq' + 10 <= Square.x sq \/
     Square.y sq + 10 <= Square.y sq' \/
     Square.y sq' + 10 <= Square.y sq).
Proof.
  destruct scenario_instance
    as (s & q0 & q1 & q2 & q3 & Hs & _ & _ & _ & _ & _ & Hsq & _).
  exists s, q0, q3. split; [exact Hs|].
  assert (H0 : nth_error (_squares s) 0 = Some q0)
    by (rewrite Hsq; reflexivity).
  assert (H3 : nth_error (_squares s) 3 = Some q3)
    by (rewrite Hsq; reflexivity).
  split; [exact H0|]. split; [exact H3|].
  assert (Hsize : 0 <= squareSize scenarioOptions
                  <= cellSize scenarioOptions + gapSize scenarioOptions)
    by (simpl; lra).
  assert (Hne : 0%nat <> 3%nat) by discriminate.
  exact (squares_do_not_overlap blankCanvas scenarioOptions halfRng s
           0 3 q0 q3 Hs Hsize Hne H0 H3).
Defined.

(** ** The square on the center *)

(** X18. The distance is measured from a square's top-left corner, so a
    square can sit at distance 0; such a square is not held back by the gate
    of an instance at rest.  In the first frame after construction (with
    [Math.random] in [0,1) and [minPointFadeSpeed > 0]) it becomes visible:
    its opacity is positive, and equals [speed * pointFadeSpeedFactor], its
    speed unchanged, when that product is at most 1. *)
Theorem center_square_lights_at_rest
  (canvas : Canvas) (o : CardEffectOptions) (rng : Rng)
  (s0 s1 : CardEffect) (k : nat) (sq sq1 : Square.t) :
  constructor canvas o rng = Ok s0 ->
  (forall i, 0 <= draws rng i < 1) ->
  0 < minPointFadeSpeed o ->
  animateCardEffect s0 = Ok s1 ->
  nth_error (_squares s0) k = Some sq ->
  nth_error (_squares s1) k = Some sq1 ->
  Square.distanceFromCenter sq = 0 ->
  0 < Square.opacity sq1 /\
  (Square.speed sq * pointFadeSpeedFactor o <= 1 ->
   Square.opacity sq1 = Square.speed sq * pointFadeSpeedFactor o /\
   Square.speed sq1 = Square.speed sq).
Proof.
  intros H Hrng Hmin H1 Hk Hk1 Hd.
  pose proof (constructor_Ok _ _ _ _ H)
    as ((Hval & Hfac) & Ho & _ & _ & Hm & _ & Hf & Hmax & _ & F).
  pose proof (animate_Ok _ _ H1) as (Hmap & _).
  rewrite Hmap, nth_error_map, Hk in Hk1. simpl in Hk1. injection Hk1 as <-.
  rewrite Forall_forall in F.
  destruct (F sq (nth_error_In _ _ Hk)) as (Hop & _ & i & j & Hsp & _).
  assert (Hpos : 0 < Square.speed sq).
  { rewrite Hsp. pose proof (Hrng i) as [Hi0 Hi1]. nra. }
  pose proof (easing_frame s0) as (Go & _ & _ & Gd & _).
  pose proof (easing_idle s0 Hm Hf) as Gf.
  assert (Hgate : waveGate (easing s0) sq = sq).
  { unfold waveGate, normalizedDistance, jsDiv. rewrite Hd, Gf.
    destruct (Req_dec_T (_maxPointDistance (easing s0)) 0).
    - destruct (Rlt_dec 0 0); [lra|]. reflexivity.
    - simpl. destruct (Rgt_dec (0 / _maxPointDistance (easing s0)) 0)
        as [Hgt|]; [|reflexivity].
      unfold Rdiv in Hgt. rewrite Rmult_0_l in Hgt. lra. }
  unfold updateSquare. rewrite Hgate. unfold bounce, integrate.
  rewrite Go, Ho.
  assert (Hprod : 0 < Square.speed sq * pointFadeSpeedFactor o) by nra.
  destruct sq as [x y op sp col d]. simpl in *. subst op.
  destruct (Rgt_dec (0 + sp * pointFadeSpeedFactor o) 1) as [Hbig|Hsmall];
    simpl.
  - split; [lra|]. intros Hle. lra.
  - destruct (Rlt_dec (0 + sp * pointFadeSpeedFactor o) 0); [lra|].
    simpl. split; [lra|]. intros _. split; [lra | reflexivity].
Qed.

Lemma center_square_lights_at_rest_witness :
  exists s0 s1 sq sq1,
    constructor blankCanvas scenarioOptions halfRng = Ok s0 /\
    animateCardEffect s0 = Ok s1 /\
    nth_error (_squares s0) 3 = Some sq /\
    nth_error (_squares s1) 3 = Some sq1 /\
    Square.x sq = 10 /\ Square.y sq = 10 /\
    Square.opacity sq1 = 0.055.
Proof.
  destruct scenario_instance
    as (s0 & q0 & q1 & q2 & q3 & Hs0 & _ & _ & _ & _ & _ & Hsq & Hc
        & Hfresh & _ & G3).
  destruct (animate_total s0 Hc) as [s1 H1].
  assert (H3 : nth_error (_squares s0) 3 = Some q3)
    by (rewrite Hsq; reflexivity).
  assert (Hlen : List.length (_squares s1) = List.length (_squares s0)).
  { pose proof (animate_Ok _ _ H1) as (-> & _). apply length_map. }
  destruct (nth_error (_squares s1) 3) as [sq1|] eqn:Hn.
  2:{ apply nth_error_None in Hn. rewrite Hlen, Hsq in Hn. simpl in Hn. lia. }
  exists s0, s1, q3, sq1.
  split; [exact Hs0|]. split; [exact H1|]. split; [exact H3|].
  split; [exact Hn|].
  injection G3 as X3 Y3 D3.
  split; [exact X3|]. split; [exact Y3|].
  assert (Hmin : 0 < minPointFadeSpeed scenarioOptions) by (simpl; lra).
  destruct (center_square_lights_at_rest blankCanvas scenarioOptions halfRng
              s0 s1 3 q3 sq1 Hs0 halfRng_range Hmin H1 H3 Hn D3)
    as (_ & Hsmall).
  rewrite Forall_forall in Hfresh.
  destruct (Hfresh q3 (nth_error_In _ _ H3)) as (_ & Hsp).
  rewrite Hsp in Hsmall. simpl in Hsmall.
  destruct Hsmall as (Hop & _); lra.
Defined.
